(** * XlTlmEthSoftSw: a learning Ethernet switch over TLM-2.0 sockets

    Shallow embedding of [XlTlmEthSoftSw.cxx]: the MAC fingerprint
    [hashMacAddr], the learning table [dMacCache], and the two transport
    entry points [b_transport] and [nb_transport_fw].

    The switch is stateful and calls out to the sockets bound to its TX
    ports.  Both are modelled by a small monad that threads the switch and
    the state of the outside world, collects the externally visible events
    of a call (egress calls, monitor writes, the final zero-time wait) and
    can stop on a failed [assert] or on a mutex that is already held.

    Conventions of the model:
    - [assert] is compiled in (no NDEBUG): a failed assertion ends the run;
    - the 32-bit load in [hashMacAddr] is little-endian;
    - a call is followed on its own: a held mutex suspends it, and the
      sockets behind the TX ports act on the outside world, the frame, the
      phase and the delay, not on the switch;
    - the banner text of the monitor writes is left out, the write itself
      is an event; the subscribers of the analysis ports only observe: a
      write changes neither the frame nor the outside world. *)

From Stdlib Require Import ZArith List Lia.
From stdpp Require Import base numbers list sorting gmap strings pretty.

Local Open Scope Z_scope.

(** ** TLM-2.0 vocabulary used by the switch *)

Inductive tlm_response_status : Set :=
| TLM_OK_RESPONSE
| TLM_INCOMPLETE_RESPONSE
| TLM_GENERIC_ERROR_RESPONSE
| TLM_ADDRESS_ERROR_RESPONSE
| TLM_COMMAND_ERROR_RESPONSE
| TLM_BURST_ERROR_RESPONSE
| TLM_BYTE_ENABLE_ERROR_RESPONSE.

Inductive tlm_sync_enum : Set :=
| TLM_ACCEPTED
| TLM_UPDATED
| TLM_COMPLETED.

Inductive tlm_phase : Set :=
| UNINITIALIZED_PHASE
| BEGIN_REQ
| END_REQ
| BEGIN_RESP
| END_RESP.

Inductive TransportKind : Set :=
| B_TRANSPORT
| NB_TRANSPORT_FW.

#[global] Instance tlm_response_status_eq_dec : EqDecision tlm_response_status.
Proof. solve_decision. Defined.

#[global] Instance tlm_sync_enum_eq_dec : EqDecision tlm_sync_enum.
Proof. solve_decision. Defined.

#[global] Instance tlm_phase_eq_dec : EqDecision tlm_phase.
Proof. solve_decision. Defined.

(** [sc_time]: the delay argument is only passed through to the egress
    sockets; a number of picoseconds. *)
Definition sc_time : Type := Z.

(** ** Frames *)

(** Modelled from the spec: the [EtherPacket] header layout of
    XlEtherPacketSnooper.h, which is not among the sources: a 6-byte
    destination address and a 6-byte source address in front of the data
    region.  The switch only ever reads the two addresses. *)
Record EtherPacket : Type := mkEtherPacket {
  destAddr : list Byte.byte;
  srcAddr : list Byte.byte;
  payload : list Byte.byte
}.

(** The part of [tlm_generic_payload] the switch touches: the data the data
    pointer refers to, the mutable response status, and whether a
    [uvmc::uvmc_xl_config] extension is attached. *)
Record tlm_generic_payload : Type := mkPayload {
  data : EtherPacket;
  response_status : tlm_response_status;
  config_extension : bool
}.

Definition set_response_status (st : tlm_response_status)
    (trans : tlm_generic_payload) : tlm_generic_payload :=
  {| data := data trans; response_status := st;
     config_extension := config_extension trans |}.

(** ** Machine integers *)

(** Conversion to [unsigned] / [uint32_t]: reduction modulo 2^32. *)
Definition to_uint32 (z : Z) : Z := z mod 2 ^ 32.

(** [macAddr[i]] as an unsigned char. *)
Definition byte_at (macAddr : list Byte.byte) (i : nat) : Z :=
  Z.of_N (Byte.to_N (nth i macAddr Byte.x00)).

(** [*((const uint32_t * )macAddr)]: the first four bytes read as one 32-bit
    word, least significant byte first. *)
Definition load_uint32 (macAddr : list Byte.byte) : Z :=
  Z.lor (byte_at macAddr 0)
    (Z.lor (Z.shiftl (byte_at macAddr 1) 8)
       (Z.lor (Z.shiftl (byte_at macAddr 2) 16)
          (Z.shiftl (byte_at macAddr 3) 24))).

(** [hashMacAddr]: the first four bytes as a 32-bit integer, plus the last
    two, in 32-bit arithmetic. *)
Definition hashMacAddr (macAddr : list Byte.byte) : Z :=
  let hash := load_uint32 macAddr in
  let hash := to_uint32 (hash + byte_at macAddr 4) in
  let hash := to_uint32 (hash + byte_at macAddr 5) in
  hash.

(** ** The switch object *)

Record XlTlmEthSoftSw : Type := mkSwitch {
  dNumPorts : Z;
  isMonitoringEnabled : bool;
  dMacCache : gmap Z Z;
  dBTransportLock : bool  (* [true] while the sc_mutex is held *)
}.

Definition with_dMacCache (m : gmap Z Z) (sw : XlTlmEthSoftSw) : XlTlmEthSoftSw :=
  {| dNumPorts := dNumPorts sw; isMonitoringEnabled := isMonitoringEnabled sw;
     dMacCache := m; dBTransportLock := dBTransportLock sw |}.

Definition with_dBTransportLock (b : bool) (sw : XlTlmEthSoftSw) : XlTlmEthSoftSw :=
  {| dNumPorts := dNumPorts sw; isMonitoringEnabled := isMonitoringEnabled sw;
     dMacCache := dMacCache sw; dBTransportLock := b |}.

(** ** Events a call makes visible outside the switch *)

Inductive Event : Type :=
| AnalysisRxWrite (rxPortId : Z) (kind : TransportKind)
    (* analysisRxPorts[rxPortId]->write *)
| AnalysisTxWrite (txPortId : Z) (kind : TransportKind)
    (* analysisTxPorts[txPortId]->write *)
| StdoutSending (txPortId : Z)
    (* the fprintf of the blocking unicast branch *)
| TxBTransport (txPortId : Z) (after : tlm_response_status)
    (* ( *txPorts[txPortId])->b_transport, with the response status the
       callee left in the frame *)
| TxNbTransportFw (txPortId : Z) (phase : tlm_phase)
    (ret : tlm_sync_enum) (after : tlm_response_status)
    (* ( *txPorts[txPortId])->nb_transport_fw, with the phase handed to the
       callee, the value it returned and the response status it left *)
| WaitZero.
    (* wait(0, SC_PS) *)

(** The TX ports on which an egress transport call was made, in call order. *)
Definition egress_of (e : Event) : option Z :=
  match e with
  | TxBTransport p _ => Some p
  | TxNbTransportFw p _ _ _ => Some p
  | _ => None
  end.

Definition egress_ports (evs : list Event) : list Z := omap egress_of evs.

(** The monitor writes of a call. *)
Definition is_monitor (e : Event) : bool :=
  match e with
  | AnalysisRxWrite _ _ | AnalysisTxWrite _ _ | StdoutSending _ => true
  | _ => false
  end.

(** Every egress call of the trace left the response status OK and, on the
    non-blocking interface, returned TLM_COMPLETED. *)
Definition egress_ok (e : Event) : Prop :=
  match e with
  | TxBTransport _ st => st = TLM_OK_RESPONSE
  | TxNbTransportFw _ _ ret st => ret = TLM_COMPLETED ∧ st = TLM_OK_RESPONSE
  | _ => True
  end.

(** The blocking egress calls of a trace: port and response status left. *)
Definition b_call_of (e : Event) : option (Z * tlm_response_status) :=
  match e with
  | TxBTransport p st => Some (p, st)
  | _ => None
  end.

Definition b_calls (evs : list Event) : list (Z * tlm_response_status) :=
  omap b_call_of evs.

(** The non-blocking egress calls of a trace: port, phase handed over, value
    returned, response status left. *)
Definition nb_call_of (e : Event)
    : option (Z * tlm_phase * tlm_sync_enum * tlm_response_status) :=
  match e with
  | TxNbTransportFw p ph ret st => Some (p, ph, ret, st)
  | _ => None
  end.

Definition nb_calls (evs : list Event)
    : list (Z * tlm_phase * tlm_sync_enum * tlm_response_status) :=
  omap nb_call_of evs.

Definition nb_call_port (c : Z * tlm_phase * tlm_sync_enum * tlm_response_status)
    : Z := c.1.1.1.
Definition nb_call_phase (c : Z * tlm_phase * tlm_sync_enum * tlm_response_status)
    : tlm_phase := c.1.1.2.
Definition nb_call_ret (c : Z * tlm_phase * tlm_sync_enum * tlm_response_status)
    : tlm_sync_enum := c.1.2.
Definition nb_call_status (c : Z * tlm_phase * tlm_sync_enum * tlm_response_status)
    : tlm_response_status := c.2.

(** ** The learning block, as a function on tables *)

(** The condition of the [assert] in the learning block of both transport
    functions: a source fingerprint that is already bound is bound to the
    ingress port. *)
Definition source_consistent (m : gmap Z Z) (rxPortId : Z)
    (trans : tlm_generic_payload) : Prop :=
  match m !! hashMacAddr (srcAddr (data trans)) with
  | Some second => to_uint32 rxPortId = second
  | None => True
  end.

#[global] Instance source_consistent_decision m rxPortId trans :
  Decision (source_consistent m rxPortId trans).
Proof.
  unfold source_consistent.
  destruct (m !! hashMacAddr (srcAddr (data trans))); apply _.
Defined.

(** The table the learning block leaves when the [assert] holds. *)
Definition learnt (m : gmap Z Z) (rxPortId : Z)
    (trans : tlm_generic_payload) : gmap Z Z :=
  match m !! hashMacAddr (srcAddr (data trans)) with
  | Some _ => m
  | None => <[hashMacAddr (srcAddr (data trans)) := to_uint32 rxPortId]> m
  end.

(** The ingress port is an index into the port vectors, which have
    [dNumPorts] entries; [dNumPorts] is an [unsigned]. *)
Definition valid_port (sw : XlTlmEthSoftSw) (rxPortId : Z) : Prop :=
  0 ≤ rxPortId < dNumPorts sw ∧ dNumPorts sw < 2 ^ 32.

Lemma to_uint32_port sw rxPortId :
  valid_port sw rxPortId → to_uint32 rxPortId = rxPortId.
Proof.
  intros [? ?]. unfold to_uint32. apply Z.mod_small. lia.
Qed.

Lemma learnt_lookup_mono m rxPortId trans k v :
  m !! k = Some v → learnt m rxPortId trans !! k = Some v.
Proof.
  intros Hk. unfold learnt.
  destruct (m !! hashMacAddr (srcAddr (data trans))) eqn:Hsrc; [done|].
  rewrite lookup_insert_ne; [done|]. congruence.
Qed.

Lemma learnt_lookup_other m rxPortId trans k :
  k ≠ hashMacAddr (srcAddr (data trans)) →
  learnt m rxPortId trans !! k = m !! k.
Proof.
  intros Hk. unfold learnt.
  destruct (m !! hashMacAddr (srcAddr (data trans))); [done|].
  by rewrite lookup_insert_ne.
Qed.

Lemma learnt_lookup_fresh m rxPortId trans :
  m !! hashMacAddr (srcAddr (data trans)) = None →
  learnt m rxPortId trans
  = <[hashMacAddr (srcAddr (data trans)) := to_uint32 rxPortId]> m.
Proof. intros Hsrc. unfold learnt. by rewrite Hsrc. Qed.

Lemma learnt_lookup_known m rxPortId trans second :
  m !! hashMacAddr (srcAddr (data trans)) = Some second →
  learnt m rxPortId trans = m.
Proof. intros Hsrc. unfold learnt. by rewrite Hsrc. Qed.

Lemma seqZ_succ i n : seqZ i (Z.of_nat (S n)) = i :: seqZ (i + 1) (Z.of_nat n).
Proof.
  rewrite seqZ_cons by lia. f_equal. f_equal; lia.
Qed.

(** The ports a flood is aimed at: [0 .. numPorts-1] without the ingress
    port, in ascending order. *)
Lemma seqZ_sorted n : ∀ i, StronglySorted Z.lt (seqZ i (Z.of_nat n)).
Proof.
  induction n as [|n IH]; intros i.
  - constructor.
  - rewrite seqZ_succ. constructor; [apply IH|].
    apply list.Forall_forall. intros p Hp%elem_of_seqZ. lia.
Qed.

Lemma filter_sorted (P : Z → Prop) `{∀ x, Decision (P x)} (l : list Z) :
  StronglySorted Z.lt l → StronglySorted Z.lt (filter P l).
Proof.
  induction 1 as [|x l Hl IH Hx]; [constructor|].
  rewrite filter_cons. destruct (decide (P x)); [|done].
  constructor; [done|]. apply list.Forall_forall.
  intros y Hy%list_elem_of_filter.
  rewrite list.Forall_forall in Hx. apply Hx. tauto.
Qed.

Lemma flood_targets_sorted numPorts ingress :
  StronglySorted Z.lt (filter (λ p, p ≠ ingress) (seqZ 0 numPorts)).
Proof.
  apply filter_sorted.
  destruct (Z_le_gt_dec 0 numPorts) as [Hn|Hn].
  - rewrite <- (Z2Nat.id numPorts) by done. apply seqZ_sorted.
  - rewrite seqZ_nil by lia. constructor.
Qed.

Lemma elem_of_flood_targets numPorts ingress p :
  p ∈ filter (λ p, p ≠ ingress) (seqZ 0 numPorts)
  ↔ 0 ≤ p < numPorts ∧ p ≠ ingress.
Proof.
  rewrite list_elem_of_filter, elem_of_seqZ. lia.
Qed.

Lemma prefix_sorted (l1 l2 : list Z) :
  l1 `prefix_of` l2 → StronglySorted Z.lt l2 → StronglySorted Z.lt l1.
Proof.
  intros [k ->]. apply StronglySorted_app_1_l.
Qed.

(** [ports] is the list of the ports [0 .. numPorts-1] other than [ingress],
    each once, in ascending order. *)
Definition all_ports_but (numPorts ingress : Z) (ports : list Z) : Prop :=
  StronglySorted Z.lt ports ∧ ∀ p, p ∈ ports ↔ 0 ≤ p < numPorts ∧ p ≠ ingress.

Lemma all_ports_but_flood_targets numPorts ingress :
  all_ports_but numPorts ingress
    (filter (λ p, p ≠ ingress) (seqZ 0 numPorts)).
Proof.
  split; [apply flood_targets_sorted|]. intros p. apply elem_of_flood_targets.
Qed.

(** ** The routing decision of the specification

    The specification describes one forwarding engine behind both transport
    paths: [learn] on the learning table, then [decide].  These two
    definitions follow its wording; the source has no such function, the
    block is written out in [b_transport] and again in [nb_transport_fw]. *)

Inductive RoutingDecision : Type :=
| Unicast (egressPort : Z)
| Flood (allPortsExceptIngress : list Z).

(** [learn(fingerprint, portIndex)]: binds the fingerprint if absent; fails
    ([None], the InconsistentBinding error) when it is bound to another
    port. *)
Definition spec_learn (table : gmap Z Z) (fingerprint portIndex : Z)
    : option (gmap Z Z) :=
  match table !! fingerprint with
  | None => Some (<[fingerprint := portIndex]> table)
  | Some bound => if decide (bound = portIndex) then Some table else None
  end.

(** [decide(frame, ingressPort)]: learn the source, then route on the
    destination. *)
Definition spec_decide (numPorts : Z) (table : gmap Z Z)
    (source destination : list Byte.byte) (ingressPort : Z)
    : option (gmap Z Z * RoutingDecision) :=
  table' ← spec_learn table (hashMacAddr source) ingressPort;
  Some (table',
        match table' !! hashMacAddr destination with
        | Some egressPort => Unicast egressPort
        | None => Flood (filter (λ p, p ≠ ingressPort) (seqZ 0 numPorts))
        end).

(** A trace carries out a decision: a unicast is one egress call, to that
    port; a flood calls the target ports in order, all of them unless an
    egress call goes wrong. *)
Definition carries_out (d : RoutingDecision) (evs : list Event) : Prop :=
  match d with
  | Unicast egressPort => egress_ports evs = [egressPort]
  | Flood targets =>
      egress_ports evs `prefix_of` targets
      ∧ (Forall egress_ok evs → egress_ports evs = targets)
  end.

(** ** Outcomes *)

Inductive Outcome (A : Type) : Type :=
| Returned (a : A)      (* the call returned *)
| AssertionFailed       (* a failed assert: the process is aborted *)
| Suspended.            (* waiting for a mutex that is held *)
Arguments Returned {A} a.
Arguments AssertionFailed {A}.
Arguments Suspended {A}.

Section Switch.

(** The sockets bound to the TX ports belong to the environment.  [World] is
    its state; the two functions are what a TX socket does with a blocking
    and with a non-blocking call: they may change the world, the frame, the
    delay and the phase, and the non-blocking one returns a [tlm_sync_enum]. *)
Variable World : Type.
Variable tx_b : Z → World → tlm_generic_payload → sc_time →
                World * tlm_generic_payload * sc_time.
Variable tx_nb : Z → World → tlm_generic_payload → tlm_phase → sc_time →
                 World * tlm_generic_payload * tlm_phase * sc_time * tlm_sync_enum.

Record Sim : Type := mkSim {
  sw : XlTlmEthSoftSw;
  world : World
}.

Record Run (A : Type) : Type := mkRun {
  outcome : Outcome A;
  final : Sim;
  events : list Event
}.
Arguments mkRun {A} _ _ _.
Arguments outcome {A} _.
Arguments final {A} _.
Arguments events {A} _.

Definition M (A : Type) : Type := Sim → Run A.

#[local] Instance M_ret : MRet M := λ A a s, mkRun (Returned a) s [].

#[local] Instance M_bind : MBind M := λ A B f m s,
  let r := m s in
  match outcome r with
  | Returned a =>
      let r' := f a (final r) in
      mkRun (outcome r') (final r') (events r ++ events r')
  | AssertionFailed => mkRun AssertionFailed (final r) (events r)
  | Suspended => mkRun Suspended (final r) (events r)
  end.

Definition emit (e : Event) : M unit := λ s, mkRun (Returned tt) s [e].

Definition read {A} (f : XlTlmEthSoftSw → A) : M A :=
  λ s, mkRun (Returned (f (sw s))) s [].

Definition update (f : XlTlmEthSoftSw → XlTlmEthSoftSw) : M unit :=
  λ s, mkRun (Returned tt) (mkSim (f (sw s)) (world s)) [].

(** [assert(c)] of <cassert>, assertions enabled. *)
Definition assert (c : bool) : M unit :=
  λ s, mkRun (if c then Returned tt else AssertionFailed) s [].

Definition when (c : bool) (m : M unit) : M unit :=
  if c then m else mret tt.

(** [sc_mutex::lock]: the caller proceeds only once it holds the mutex. *)
Definition lock : M unit := λ s,
  if dBTransportLock (sw s) then mkRun Suspended s []
  else mkRun (Returned tt) (mkSim (with_dBTransportLock true (sw s)) (world s)) [].

Definition unlock : M unit := update (with_dBTransportLock false).

(** [dMacCache.find(macHash)], [None] for [dMacCache.end()]. *)
Definition find (macHash : Z) : M (option Z) :=
  read (λ sw, dMacCache sw !! macHash).

(** [dMacCache[macHash] = rxPortId], the port converted to [unsigned]. *)
Definition store (macHash rxPortId : Z) : M unit :=
  update (λ sw, with_dMacCache (<[macHash := to_uint32 rxPortId]> (dMacCache sw)) sw).

(** [( *txPorts[portId])->b_transport( trans, delay )] *)
Definition txPort_b_transport (portId : Z) (trans : tlm_generic_payload)
    (delay : sc_time) : M (tlm_generic_payload * sc_time) := λ s,
  let '(w, trans', delay') := tx_b portId (world s) trans delay in
  mkRun (Returned (trans', delay')) (mkSim (sw s) w)
        [TxBTransport portId (response_status trans')].

(** [( *txPorts[portId])->nb_transport_fw( trans, phase, delay )] *)
Definition txPort_nb_transport_fw (portId : Z) (trans : tlm_generic_payload)
    (phase : tlm_phase) (delay : sc_time)
    : M (tlm_sync_enum * tlm_generic_payload * tlm_phase * sc_time) := λ s,
  let '(w, trans', phase', delay', ret) := tx_nb portId (world s) trans phase delay in
  mkRun (Returned (ret, trans', phase', delay')) (mkSim (sw s) w)
        [TxNbTransportFw portId phase ret (response_status trans')].

(** *** b_transport *)

(** The flood loop of [b_transport],
    [for( unsigned i=0; i<dNumPorts; i++ )]: [n] iterations are left and
    the loop variable is [i]. *)
Fixpoint b_flood (n : nat) (i : Z) (rxPortId : Z)
    (trans : tlm_generic_payload) (delay : sc_time)
    : M (tlm_generic_payload * sc_time) :=
  match n with
  | O => mret (trans, delay)
  | S n' =>
      if decide (i ≠ to_uint32 rxPortId) then
        mon ← read isMonitoringEnabled;
        when mon (emit (AnalysisTxWrite i B_TRANSPORT));;
        '(trans, delay) ← txPort_b_transport i trans delay;
        if decide (response_status trans ≠ TLM_OK_RESPONSE)
        then mret (trans, delay)                              (* break *)
        else b_flood n' (i + 1) rxPortId trans delay
      else b_flood n' (i + 1) rxPortId trans delay
  end.

Definition b_transport (rxPortId : Z) (trans : tlm_generic_payload)
    (delay : sc_time) : M (tlm_generic_payload * sc_time) :=
  lock;;
  mon ← read isMonitoringEnabled;
  when mon (emit (AnalysisRxWrite rxPortId B_TRANSPORT));;
  let packet := data trans in
  let macHash := hashMacAddr (srcAddr packet) in
  it ← find macHash;
  match it with
  | Some second => assert (bool_decide (to_uint32 rxPortId = second))
  | None => store macHash rxPortId
  end;;
  let macHash := hashMacAddr (destAddr packet) in
  it ← find macHash;
  '(trans, delay) ←
    match it with
    | Some portId =>
        when mon (emit (StdoutSending portId));;
        txPort_b_transport portId trans delay
    | None =>
        numPorts ← read dNumPorts;
        b_flood (Z.to_nat numPorts) 0 rxPortId trans delay
    end;
  unlock;;
  emit WaitZero;;
  mret (trans, delay).

(** *** nb_transport_fw *)

(** The flood loop of [nb_transport_fw]; [ret] is the local of the same
    name. *)
Fixpoint nb_flood (n : nat) (i : Z) (rxPortId : Z) (ret : tlm_sync_enum)
    (trans : tlm_generic_payload) (phase : tlm_phase) (delay : sc_time)
    : M (tlm_sync_enum * tlm_generic_payload * tlm_phase * sc_time) :=
  match n with
  | O => mret (ret, trans, phase, delay)
  | S n' =>
      if decide (i ≠ to_uint32 rxPortId) then
        mon ← read isMonitoringEnabled;
        when mon (emit (AnalysisTxWrite i NB_TRANSPORT_FW));;
        let phase := BEGIN_REQ in
        '(portRet, trans, phase, delay) ← txPort_nb_transport_fw i trans phase delay;
        if decide (portRet ≠ TLM_COMPLETED)
        then mret (portRet, trans, phase, delay)              (* ret = portRet; break *)
        else if decide (response_status trans ≠ TLM_OK_RESPONSE)
        then mret (ret, trans, phase, delay)                  (* break *)
        else nb_flood n' (i + 1) rxPortId ret trans phase delay
      else nb_flood n' (i + 1) rxPortId ret trans phase delay
  end.

Definition nb_transport_fw (rxPortId : Z) (trans : tlm_generic_payload)
    (phase : tlm_phase) (delay : sc_time)
    : M (tlm_sync_enum * tlm_generic_payload * tlm_phase * sc_time) :=
  let ret := TLM_COMPLETED in
  let trans := set_response_status TLM_OK_RESPONSE trans in
  if config_extension trans then mret (ret, trans, phase, delay)
  else
    mon ← read isMonitoringEnabled;
    when mon (emit (AnalysisRxWrite rxPortId NB_TRANSPORT_FW));;
    let packet := data trans in
    let macHash := hashMacAddr (srcAddr packet) in
    it ← find macHash;
    match it with
    | Some second => assert (bool_decide (to_uint32 rxPortId = second))
    | None => store macHash rxPortId
    end;;
    let macHash := hashMacAddr (destAddr packet) in
    it ← find macHash;
    match it with
    | Some portId =>
        when mon (emit (AnalysisTxWrite portId NB_TRANSPORT_FW));;
        let phase := BEGIN_REQ in
        txPort_nb_transport_fw portId trans phase delay
    | None =>
        numPorts ← read dNumPorts;
        nb_flood (Z.to_nat numPorts) 0 rxPortId ret trans phase delay
    end.

(** ** The two flood loops, one iteration at a time *)

Definition prepend {A} (evs : list Event) (r : Run A) : Run A :=
  mkRun (outcome r) (final r) (evs ++ events r).

Definition tx_monitor (mon : bool) (i : Z) (kind : TransportKind) : list Event :=
  if mon then [AnalysisTxWrite i kind] else [].

Definition rx_monitor (mon : bool) (i : Z) (kind : TransportKind) : list Event :=
  if mon then [AnalysisRxWrite i kind] else [].

Ltac unfold_M :=
  unfold mbind, M_bind, mret, M_ret, when, emit, read, update, assert, find,
    store, lock, unlock, txPort_b_transport, txPort_nb_transport_fw.

Lemma b_flood_step n i rxPortId trans delay s :
  b_flood (S n) i rxPortId trans delay s =
  if decide (i ≠ to_uint32 rxPortId) then
    let '(w, t', d') := tx_b i (world s) trans delay in
    prepend (tx_monitor (isMonitoringEnabled (sw s)) i B_TRANSPORT
               ++ [TxBTransport i (response_status t')])
      (if decide (response_status t' ≠ TLM_OK_RESPONSE)
       then mkRun (Returned (t', d')) (mkSim (sw s) w) []
       else b_flood n (i + 1) rxPortId t' d' (mkSim (sw s) w))
  else b_flood n (i + 1) rxPortId trans delay s.
Proof.
  simpl. destruct (decide (i ≠ to_uint32 rxPortId)); [|reflexivity].
  unfold_M. unfold prepend, tx_monitor. simpl.
  destruct (isMonitoringEnabled (sw s)); simpl;
    destruct (tx_b i (world s) trans delay) as [[w t'] d']; simpl;
    destruct (decide (response_status t' ≠ TLM_OK_RESPONSE)); reflexivity.
Qed.

Lemma nb_flood_step n i rxPortId ret trans phase delay s :
  nb_flood (S n) i rxPortId ret trans phase delay s =
  if decide (i ≠ to_uint32 rxPortId) then
    let '(w, t', ph', d', portRet) := tx_nb i (world s) trans BEGIN_REQ delay in
    prepend (tx_monitor (isMonitoringEnabled (sw s)) i NB_TRANSPORT_FW
               ++ [TxNbTransportFw i BEGIN_REQ portRet (response_status t')])
      (if decide (portRet ≠ TLM_COMPLETED)
       then mkRun (Returned (portRet, t', ph', d')) (mkSim (sw s) w) []
       else if decide (response_status t' ≠ TLM_OK_RESPONSE)
       then mkRun (Returned (ret, t', ph', d')) (mkSim (sw s) w) []
       else nb_flood n (i + 1) rxPortId ret t' ph' d' (mkSim (sw s) w))
  else nb_flood n (i + 1) rxPortId ret trans phase delay s.
Proof.
  simpl. destruct (decide (i ≠ to_uint32 rxPortId)); [|reflexivity].
  unfold_M. unfold prepend, tx_monitor. simpl.
  destruct (isMonitoringEnabled (sw s)); simpl;
    destruct (tx_nb i (world s) trans BEGIN_REQ delay) as [[[[w t'] ph'] d'] portRet];
    simpl;
    destruct (decide (portRet ≠ TLM_COMPLETED)); try reflexivity;
    destruct (decide (response_status t' ≠ TLM_OK_RESPONSE)); reflexivity.
Qed.

(** ** Facts about the blocking flood loop *)

Lemma egress_ports_tx_monitor mon i kind evs :
  egress_ports (tx_monitor mon i kind ++ evs) = egress_ports evs.
Proof. destruct mon; reflexivity. Qed.

Lemma b_calls_tx_monitor mon i kind evs :
  b_calls (tx_monitor mon i kind ++ evs) = b_calls evs.
Proof. destruct mon; reflexivity. Qed.

Lemma nb_calls_tx_monitor mon i kind evs :
  nb_calls (tx_monitor mon i kind ++ evs) = nb_calls evs.
Proof. destruct mon; reflexivity. Qed.

Lemma Forall_egress_ok_tx_monitor mon i kind evs :
  Forall egress_ok (tx_monitor mon i kind ++ evs) ↔ Forall egress_ok evs.
Proof.
  destruct mon; simpl; [|reflexivity].
  rewrite Forall_cons. simpl. split; [by intros [_ ?]|by split].
Qed.

Ltac b_flood_cases n IH i trans delay s :=
  induction n as [|n IH]; intros i trans delay s;
  [ simpl
  | rewrite b_flood_step;
    destruct (decide (i ≠ to_uint32 _)) as [Hne|Heq];
    [ destruct (tx_b i (world s) trans delay) as [[w t'] d'] eqn:Htx; simpl;
      destruct (decide (response_status t' ≠ TLM_OK_RESPONSE)) as [Hbad|Hok];
      simpl; rewrite <- ?app_assoc; simpl
    | ] ].

Lemma b_flood_returns n rxPortId : ∀ i trans delay s,
  ∃ out, outcome (b_flood n i rxPortId trans delay s) = Returned out.
Proof.
  b_flood_cases n IH i trans delay s; eauto.
Qed.

Lemma b_flood_sw n rxPortId : ∀ i trans delay s,
  sw (final (b_flood n i rxPortId trans delay s)) = sw s.
Proof.
  b_flood_cases n IH i trans delay s; try reflexivity.
  - apply (IH _ _ _ (mkSim (sw s) w)).
  - apply IH.
Qed.

(** The ports called are an initial segment of the ports [i], [i+1], ...
    other than the ingress port. *)
Lemma b_flood_ports_prefix n rxPortId : ∀ i trans delay s,
  egress_ports (events (b_flood n i rxPortId trans delay s))
    `prefix_of` filter (λ p, p ≠ to_uint32 rxPortId) (seqZ i (Z.of_nat n)).
Proof.
  b_flood_cases n IH i trans delay s;
    rewrite ?seqZ_succ, ?egress_ports_tx_monitor; simpl.
  - apply prefix_nil.
  - rewrite filter_cons_True by done. apply prefix_cons, prefix_nil.
  - rewrite filter_cons_True by done. apply prefix_cons, IH.
  - rewrite filter_cons_False by done. apply IH.
Qed.

(** No egress call went wrong: the loop ran to its end. *)
Lemma b_flood_ports_all n rxPortId : ∀ i trans delay s,
  Forall egress_ok (events (b_flood n i rxPortId trans delay s)) →
  egress_ports (events (b_flood n i rxPortId trans delay s))
  = filter (λ p, p ≠ to_uint32 rxPortId) (seqZ i (Z.of_nat n)).
Proof.
  b_flood_cases n IH i trans delay s;
    rewrite ?seqZ_succ, ?egress_ports_tx_monitor, ?Forall_egress_ok_tx_monitor;
    simpl; try rewrite Forall_cons; simpl.
  - reflexivity.
  - intros [? _]. done.
  - intros [_ Hall]. rewrite filter_cons_True by done. f_equal. by apply IH.
  - intros Hall. rewrite filter_cons_False by done. by apply IH.
Qed.

(** A call that leaves a response status other than OK is the last one. *)
Lemma b_flood_stops n rxPortId : ∀ i trans delay s pre p st post,
  b_calls (events (b_flood n i rxPortId trans delay s)) = pre ++ (p, st) :: post →
  st ≠ TLM_OK_RESPONSE → post = [].
Proof.
  b_flood_cases n IH i trans delay s; intros pre p st post;
    rewrite ?b_calls_tx_monitor; simpl; intros Hcalls Hst.
  - by destruct pre.
  - destruct pre as [|x [|y pre]]; simpl in Hcalls; by simplify_eq.
  - destruct pre as [|x pre]; simpl in Hcalls; simplify_eq.
    eapply IH; eauto.
  - eapply IH; eauto.
Qed.

(** The frame handed back carries the response status of the last egress
    call, and is the caller's frame when no call was made. *)
Lemma b_flood_status n rxPortId : ∀ i trans delay s,
  ∃ t' d', outcome (b_flood n i rxPortId trans delay s) = Returned (t', d') ∧
    response_status t' =
      match last (b_calls (events (b_flood n i rxPortId trans delay s))) with
      | Some (_, st) => st
      | None => response_status trans
      end.
Proof.
  b_flood_cases n IH i trans delay s; rewrite ?b_calls_tx_monitor; simpl.
  - eauto.
  - eauto.
  - destruct (IH (i + 1) t' d' (mkSim (sw s) w)) as (t'' & d'' & Hout & Hst).
    exists t'', d''. split; [done|]. rewrite Hst.
    destruct (b_calls _) as [|c cs]; [done|].
    rewrite last_cons_cons, last_cons. by destruct (last cs).
  - apply IH.
Qed.

(** ** Facts about the non-blocking flood loop *)

Ltac nb_flood_cases n IH i trans phase delay s :=
  induction n as [|n IH]; intros i trans phase delay s;
  [ simpl
  | rewrite nb_flood_step;
    destruct (decide (i ≠ to_uint32 _)) as [Hne|Heq];
    [ destruct (tx_nb i (world s) trans BEGIN_REQ delay)
        as [[[[w t'] ph'] d'] portRet] eqn:Htx; simpl;
      destruct (decide (portRet ≠ TLM_COMPLETED)) as [Hpend|Hdone];
      [ | destruct (decide (response_status t' ≠ TLM_OK_RESPONSE)) as [Hbad|Hok] ];
      simpl; rewrite <- ?app_assoc; simpl
    | ] ].

Lemma nb_flood_sw n rxPortId ret : ∀ i trans phase delay s,
  sw (final (nb_flood n i rxPortId ret trans phase delay s)) = sw s.
Proof.
  nb_flood_cases n IH i trans phase delay s; try reflexivity.
  - apply (IH _ _ _ _ (mkSim (sw s) w)).
  - apply IH.
Qed.

Lemma nb_flood_ports_prefix n rxPortId ret : ∀ i trans phase delay s,
  egress_ports (events (nb_flood n i rxPortId ret trans phase delay s))
    `prefix_of` filter (λ p, p ≠ to_uint32 rxPortId) (seqZ i (Z.of_nat n)).
Proof.
  nb_flood_cases n IH i trans phase delay s;
    rewrite ?seqZ_succ, ?egress_ports_tx_monitor; simpl.
  - apply prefix_nil.
  - rewrite filter_cons_True by done. apply prefix_cons, prefix_nil.
  - rewrite filter_cons_True by done. apply prefix_cons, prefix_nil.
  - rewrite filter_cons_True by done. apply prefix_cons, IH.
  - rewrite filter_cons_False by done. apply IH.
Qed.

Lemma nb_flood_ports_all n rxPortId ret : ∀ i trans phase delay s,
  Forall egress_ok (events (nb_flood n i rxPortId ret trans phase delay s)) →
  egress_ports (events (nb_flood n i rxPortId ret trans phase delay s))
  = filter (λ p, p ≠ to_uint32 rxPortId) (seqZ i (Z.of_nat n)).
Proof.
  nb_flood_cases n IH i trans phase delay s;
    rewrite ?seqZ_succ, ?egress_ports_tx_monitor, ?Forall_egress_ok_tx_monitor;
    simpl; try rewrite Forall_cons; simpl.
  - reflexivity.
  - intros [[? ?] _]. done.
  - intros [[? ?] _]. done.
  - intros [_ Hall]. rewrite filter_cons_True by done. f_equal. by apply IH.
  - intros Hall. rewrite filter_cons_False by done. by apply IH.
Qed.

(** Every call is made with the phase set to BEGIN_REQ. *)
Lemma nb_flood_phase n rxPortId ret : ∀ i trans phase delay s,
  Forall (λ c, nb_call_phase c = BEGIN_REQ)
    (nb_calls (events (nb_flood n i rxPortId ret trans phase delay s))).
Proof.
  nb_flood_cases n IH i trans phase delay s;
    rewrite ?nb_calls_tx_monitor; simpl;
    repeat (apply Forall_cons; split; [reflexivity|]); try apply Forall_nil_2;
    apply IH.
Qed.

(** A call that returns something else than TLM_COMPLETED, or leaves a
    response status other than OK, is the last one. *)
Lemma nb_flood_stops n rxPortId ret : ∀ i trans phase delay s pre c post,
  nb_calls (events (nb_flood n i rxPortId ret trans phase delay s))
    = pre ++ c :: post →
  nb_call_ret c ≠ TLM_COMPLETED ∨ nb_call_status c ≠ TLM_OK_RESPONSE →
  post = [].
Proof.
  nb_flood_cases n IH i trans phase delay s; intros pre c post;
    rewrite ?nb_calls_tx_monitor; simpl; intros Hcalls Hc.
  - by destruct pre.
  - destruct pre as [|x [|y pre]]; simpl in Hcalls; by simplify_eq.
  - destruct pre as [|x [|y pre]]; simpl in Hcalls; by simplify_eq.
  - destruct pre as [|x pre]; simpl in Hcalls; simplify_eq.
    + by destruct Hc.
    + eapply IH; eauto.
  - eapply IH; eauto.
Qed.

(** The value handed back: the value of the last call that did not return
    TLM_COMPLETED, and [ret] when there is none; the frame carries the
    response status of the last call. *)
Lemma nb_flood_result n rxPortId ret : ∀ i trans phase delay s,
  ∃ ret' t' ph' d',
    outcome (nb_flood n i rxPortId ret trans phase delay s)
      = Returned (ret', t', ph', d') ∧
    ret' = default ret
      (last (filter (λ r, r ≠ TLM_COMPLETED)
         (nb_call_ret <$>
            nb_calls (events (nb_flood n i rxPortId ret trans phase delay s))))) ∧
    response_status t' = default (response_status trans)
      (last (nb_call_status <$>
         nb_calls (events (nb_flood n i rxPortId ret trans phase delay s)))).
Proof.
  nb_flood_cases n IH i trans phase delay s; rewrite ?nb_calls_tx_monitor; simpl.
  - eauto 10.
  - rewrite filter_cons_True by done. eauto 10.
  - rewrite filter_cons_False by done. eauto 10.
  - destruct (IH (i + 1) t' ph' d' (mkSim (sw s) w))
      as (ret'' & t'' & ph'' & d'' & Hout & Hret & Hst).
    exists ret'', t'', ph'', d''. split; [done|].
    rewrite filter_cons_False by done. split; [done|].
    rewrite Hst. destruct (nb_calls _) as [|c cs]; [done|].
    change (list_fmap _ _ nb_call_status (c :: cs))
      with (nb_call_status c :: (nb_call_status <$> cs)).
    rewrite fmap_cons, last_cons_cons, last_cons.
    destruct (last (nb_call_status <$> cs)); reflexivity.
  - apply IH.
Qed.

(** ** Calls and ports of a flood *)

Lemma b_flood_ports_calls n rxPortId : ∀ i trans delay s,
  egress_ports (events (b_flood n i rxPortId trans delay s))
  = (b_calls (events (b_flood n i rxPortId trans delay s))).*1.
Proof.
  b_flood_cases n IH i trans delay s;
    rewrite ?egress_ports_tx_monitor, ?b_calls_tx_monitor; simpl;
    try reflexivity.
  - f_equal. apply IH.
  - apply IH.
Qed.

Lemma nb_flood_ports_calls n rxPortId ret : ∀ i trans phase delay s,
  egress_ports (events (nb_flood n i rxPortId ret trans phase delay s))
  = nb_call_port <$> nb_calls (events (nb_flood n i rxPortId ret trans phase delay s)).
Proof.
  nb_flood_cases n IH i trans phase delay s;
    rewrite ?egress_ports_tx_monitor, ?nb_calls_tx_monitor; simpl;
    try reflexivity.
  - f_equal. apply IH.
  - apply IH.
Qed.

(** The loop ends for one of two reasons: every target port has been
    called, or the last call returned something else than TLM_COMPLETED or
    left a response status other than OK. *)
Lemma nb_flood_complete_or_stopped n rxPortId ret : ∀ i trans phase delay s,
  egress_ports (events (nb_flood n i rxPortId ret trans phase delay s))
  = filter (λ p, p ≠ to_uint32 rxPortId) (seqZ i (Z.of_nat n))
  ∨ ∃ c, last (nb_calls (events (nb_flood n i rxPortId ret trans phase delay s)))
         = Some c
       ∧ (nb_call_ret c ≠ TLM_COMPLETED ∨ nb_call_status c ≠ TLM_OK_RESPONSE).
Proof.
  nb_flood_cases n IH i trans phase delay s;
    rewrite ?seqZ_succ, ?egress_ports_tx_monitor, ?nb_calls_tx_monitor; simpl.
  - by left.
  - right. eexists. split; [reflexivity|]. by left.
  - right. eexists. split; [reflexivity|]. by right.
  - destruct (IH (i + 1) t' ph' d' (mkSim (sw s) w)) as [Hall|(c & Hlast & Hc)].
    + left. rewrite filter_cons_True by done. by f_equal.
    + right. exists c. split; [|done].
      destruct (nb_calls _) as [|c' cs]; [done|]. by rewrite last_cons_cons.
  - rewrite filter_cons_False by done. apply IH.
Qed.

Lemma b_flood_complete_or_stopped n rxPortId : ∀ i trans delay s,
  egress_ports (events (b_flood n i rxPortId trans delay s))
  = filter (λ p, p ≠ to_uint32 rxPortId) (seqZ i (Z.of_nat n))
  ∨ ∃ p st, last (b_calls (events (b_flood n i rxPortId trans delay s)))
            = Some (p, st)
          ∧ st ≠ TLM_OK_RESPONSE.
Proof.
  b_flood_cases n IH i trans delay s;
    rewrite ?seqZ_succ, ?egress_ports_tx_monitor, ?b_calls_tx_monitor; simpl.
  - by left.
  - right. eauto.
  - destruct (IH (i + 1) t' d' (mkSim (sw s) w)) as [Hall|(p & st & Hlast & Hst)].
    + left. rewrite filter_cons_True by done. by f_equal.
    + right. exists p, st. split; [|done].
      destruct (b_calls _) as [|c' cs]; [done|]. by rewrite last_cons_cons.
  - rewrite filter_cons_False by done. apply IH.
Qed.

(** ** The paths through [b_transport] *)

Definition stdout_monitor (mon : bool) (p : Z) : list Event :=
  if mon then [StdoutSending p] else [].

Lemma b_transport_suspended rxPortId trans delay s :
  dBTransportLock (sw s) = true →
  b_transport rxPortId trans delay s = mkRun Suspended s [].
Proof.
  intros Hlock. unfold b_transport. unfold_M. by rewrite Hlock.
Qed.

Lemma b_transport_abort rxPortId trans delay s second :
  dBTransportLock (sw s) = false →
  dMacCache (sw s) !! hashMacAddr (srcAddr (data trans)) = Some second →
  to_uint32 rxPortId ≠ second →
  b_transport rxPortId trans delay s
  = mkRun AssertionFailed
      (mkSim (with_dBTransportLock true (sw s)) (world s))
      (rx_monitor (isMonitoringEnabled (sw s)) rxPortId B_TRANSPORT).
Proof.
  destruct s as [[N mon m lk] wd]. simpl. intros -> Hsrc Hne.
  unfold b_transport. unfold_M.
  destruct mon; simpl; rewrite Hsrc; simpl;
    rewrite bool_decide_eq_false_2 by done; reflexivity.
Qed.

Lemma b_transport_unicast rxPortId trans delay s portId w t' d' :
  dBTransportLock (sw s) = false →
  source_consistent (dMacCache (sw s)) rxPortId trans →
  learnt (dMacCache (sw s)) rxPortId trans !! hashMacAddr (destAddr (data trans))
    = Some portId →
  tx_b portId (world s) trans delay = (w, t', d') →
  b_transport rxPortId trans delay s
  = mkRun (Returned (t', d'))
      (mkSim (mkSwitch (dNumPorts (sw s)) (isMonitoringEnabled (sw s))
                (learnt (dMacCache (sw s)) rxPortId trans) false) w)
      (rx_monitor (isMonitoringEnabled (sw s)) rxPortId B_TRANSPORT
         ++ stdout_monitor (isMonitoringEnabled (sw s)) portId
         ++ [TxBTransport portId (response_status t'); WaitZero]).
Proof.
  destruct s as [[N mon m lk] wd]. unfold source_consistent, learnt. simpl.
  intros -> Hsrc Hdst Htx.
  unfold b_transport. unfold_M.
  destruct mon; simpl;
    destruct (m !! hashMacAddr (srcAddr (data trans))); simpl;
    rewrite ?bool_decide_eq_true_2 by done; simpl;
    rewrite Hdst; simpl; rewrite Htx; reflexivity.
Qed.

Lemma b_transport_flood rxPortId trans delay s r :
  dBTransportLock (sw s) = false →
  source_consistent (dMacCache (sw s)) rxPortId trans →
  learnt (dMacCache (sw s)) rxPortId trans !! hashMacAddr (destAddr (data trans))
    = None →
  r = b_flood (Z.to_nat (dNumPorts (sw s))) 0 rxPortId trans delay
        (mkSim (mkSwitch (dNumPorts (sw s)) (isMonitoringEnabled (sw s))
                  (learnt (dMacCache (sw s)) rxPortId trans) true) (world s)) →
  b_transport rxPortId trans delay s
  = mkRun (outcome r)
      (mkSim (mkSwitch (dNumPorts (sw s)) (isMonitoringEnabled (sw s))
                (learnt (dMacCache (sw s)) rxPortId trans) false) (world (final r)))
      (rx_monitor (isMonitoringEnabled (sw s)) rxPortId B_TRANSPORT
         ++ events r ++ [WaitZero]).
Proof.
  destruct s as [[N mon m lk] wd]. unfold source_consistent, learnt. simpl.
  intros -> Hsrc Hdst ->. revert Hsrc Hdst.
  unfold b_transport. unfold_M.
  destruct mon; simpl;
    destruct (m !! hashMacAddr (srcAddr (data trans))); simpl;
    intros Hsrc Hdst; rewrite ?bool_decide_eq_true_2 by done; simpl;
    rewrite Hdst; unfold with_dBTransportLock, with_dMacCache; simpl;
    match goal with
    | |- context [b_flood ?n ?rx ?i ?t ?d ?s0] =>
        destruct (b_flood_returns n i rx t d s0) as [[t' d'] Hout];
        pose proof (b_flood_sw n i rx t d s0) as Hsw;
        rewrite Hout; simpl; rewrite Hsw
    end; reflexivity.
Qed.

(** ** The paths through [nb_transport_fw] *)

Lemma nb_transport_fw_config rxPortId trans phase delay s :
  config_extension trans = true →
  nb_transport_fw rxPortId trans phase delay s
  = mkRun (Returned (TLM_COMPLETED, set_response_status TLM_OK_RESPONSE trans,
                     phase, delay)) s [].
Proof.
  intros Hcfg. unfold nb_transport_fw. simpl. by rewrite Hcfg.
Qed.

Lemma nb_transport_fw_abort rxPortId trans phase delay s second :
  config_extension trans = false →
  dMacCache (sw s) !! hashMacAddr (srcAddr (data trans)) = Some second →
  to_uint32 rxPortId ≠ second →
  nb_transport_fw rxPortId trans phase delay s
  = mkRun AssertionFailed s
      (rx_monitor (isMonitoringEnabled (sw s)) rxPortId NB_TRANSPORT_FW).
Proof.
  destruct s as [[N mon m lk] wd]. simpl. intros Hcfg Hsrc Hne.
  unfold nb_transport_fw. simpl. rewrite Hcfg. unfold_M.
  destruct mon; simpl; rewrite Hsrc; simpl;
    rewrite bool_decide_eq_false_2 by done; reflexivity.
Qed.

Lemma nb_transport_fw_unicast rxPortId trans phase delay s portId
    w t' ph' d' ret :
  config_extension trans = false →
  source_consistent (dMacCache (sw s)) rxPortId trans →
  learnt (dMacCache (sw s)) rxPortId trans !! hashMacAddr (destAddr (data trans))
    = Some portId →
  tx_nb portId (world s) (set_response_status TLM_OK_RESPONSE trans)
    BEGIN_REQ delay = (w, t', ph', d', ret) →
  nb_transport_fw rxPortId trans phase delay s
  = mkRun (Returned (ret, t', ph', d'))
      (mkSim (with_dMacCache (learnt (dMacCache (sw s)) rxPortId trans) (sw s)) w)
      (rx_monitor (isMonitoringEnabled (sw s)) rxPortId NB_TRANSPORT_FW
         ++ tx_monitor (isMonitoringEnabled (sw s)) portId NB_TRANSPORT_FW
         ++ [TxNbTransportFw portId BEGIN_REQ ret (response_status t')]).
Proof.
  destruct s as [[N mon m lk] wd]. unfold source_consistent, learnt. simpl.
  intros Hcfg Hsrc Hdst Htx.
  unfold nb_transport_fw. simpl. rewrite Hcfg. unfold_M.
  destruct mon; simpl;
    destruct (m !! hashMacAddr (srcAddr (data trans))); simpl;
    rewrite ?bool_decide_eq_true_2 by done; simpl;
    rewrite Hdst; simpl; rewrite Htx; reflexivity.
Qed.

Lemma nb_transport_fw_flood rxPortId trans phase delay s :
  config_extension trans = false →
  source_consistent (dMacCache (sw s)) rxPortId trans →
  learnt (dMacCache (sw s)) rxPortId trans !! hashMacAddr (destAddr (data trans))
    = None →
  nb_transport_fw rxPortId trans phase delay s
  = prepend (rx_monitor (isMonitoringEnabled (sw s)) rxPortId NB_TRANSPORT_FW)
      (nb_flood (Z.to_nat (dNumPorts (sw s))) 0 rxPortId TLM_COMPLETED
         (set_response_status TLM_OK_RESPONSE trans) phase delay
         (mkSim (with_dMacCache (learnt (dMacCache (sw s)) rxPortId trans) (sw s))
            (world s))).
Proof.
  destruct s as [[N mon m lk] wd]. unfold source_consistent, learnt. simpl.
  intros Hcfg Hsrc Hdst. revert Hsrc Hdst.
  unfold nb_transport_fw. simpl. rewrite Hcfg. unfold_M. unfold prepend.
  destruct mon; simpl;
    destruct (m !! hashMacAddr (srcAddr (data trans))); simpl;
    intros Hsrc Hdst; rewrite ?bool_decide_eq_true_2 by done; simpl;
    rewrite Hdst; reflexivity.
Qed.

(** ** Every call takes one of a few paths *)

Lemma source_consistent_dec m rxPortId trans :
  source_consistent m rxPortId trans ∨
  ∃ second, m !! hashMacAddr (srcAddr (data trans)) = Some second
            ∧ to_uint32 rxPortId ≠ second.
Proof.
  unfold source_consistent.
  destruct (m !! hashMacAddr (srcAddr (data trans))) as [second|]; [|by left].
  destruct (decide (to_uint32 rxPortId = second)); [by left|right; eauto].
Qed.

Lemma egress_ports_rx_monitor mon i kind evs :
  egress_ports (rx_monitor mon i kind ++ evs) = egress_ports evs.
Proof. destruct mon; reflexivity. Qed.

Lemma egress_ports_stdout_monitor mon i evs :
  egress_ports (stdout_monitor mon i ++ evs) = egress_ports evs.
Proof. destruct mon; reflexivity. Qed.

Lemma b_calls_rx_monitor mon i kind evs :
  b_calls (rx_monitor mon i kind ++ evs) = b_calls evs.
Proof. destruct mon; reflexivity. Qed.

Lemma nb_calls_rx_monitor mon i kind evs :
  nb_calls (rx_monitor mon i kind ++ evs) = nb_calls evs.
Proof. destruct mon; reflexivity. Qed.

Lemma Forall_egress_ok_rx_monitor mon i kind evs :
  Forall egress_ok (rx_monitor mon i kind ++ evs) ↔ Forall egress_ok evs.
Proof.
  destruct mon; simpl; [|reflexivity].
  rewrite Forall_cons. simpl. split; [by intros [_ ?]|by split].
Qed.

Lemma egress_ports_snoc_wait evs :
  egress_ports (evs ++ [WaitZero]) = egress_ports evs.
Proof. unfold egress_ports. rewrite omap_app. simpl. apply app_nil_r. Qed.

Lemma b_calls_snoc_wait evs : b_calls (evs ++ [WaitZero]) = b_calls evs.
Proof. unfold b_calls. rewrite omap_app. simpl. apply app_nil_r. Qed.

Lemma Forall_egress_ok_snoc_wait evs :
  Forall egress_ok (evs ++ [WaitZero]) ↔ Forall egress_ok evs.
Proof.
  rewrite Forall_app, Forall_singleton. simpl. tauto.
Qed.

(** What a call of [b_transport] can do: wait for the mutex, die on the
    assertion before any egress call, or learn, forward, release the mutex
    and return. *)
Lemma b_transport_cases rxPortId trans delay s :
  let r := b_transport rxPortId trans delay s in
  (dBTransportLock (sw s) = true ∧ r = mkRun Suspended s [])
  ∨ (dBTransportLock (sw s) = false
     ∧ ¬ source_consistent (dMacCache (sw s)) rxPortId trans
     ∧ outcome r = AssertionFailed
     ∧ dMacCache (sw (final r)) = dMacCache (sw s)
     ∧ egress_ports (events r) = [])
  ∨ (dBTransportLock (sw s) = false
     ∧ source_consistent (dMacCache (sw s)) rxPortId trans
     ∧ (∃ out, outcome r = Returned out)
     ∧ dMacCache (sw (final r)) = learnt (dMacCache (sw s)) rxPortId trans
     ∧ dBTransportLock (sw (final r)) = false).
Proof.
  intros r. subst r.
  destruct (dBTransportLock (sw s)) eqn:Hlock.
  { left. split; [done|]. by apply b_transport_suspended. }
  right.
  destruct (source_consistent_dec (dMacCache (sw s)) rxPortId trans)
    as [Hsrc|(second & Hsrc & Hne)].
  - right. do 2 (split; [done|]).
    destruct (learnt (dMacCache (sw s)) rxPortId trans
                !! hashMacAddr (destAddr (data trans))) as [portId|] eqn:Hdst.
    + destruct (tx_b portId (world s) trans delay) as [[w t'] d'] eqn:Htx.
      rewrite (b_transport_unicast _ _ _ _ _ _ _ _ Hlock Hsrc Hdst Htx).
      simpl. eauto.
    + rewrite (b_transport_flood _ _ _ _ _ Hlock Hsrc Hdst eq_refl). simpl.
      split; [apply b_flood_returns|done].
  - left. split; [done|].
    rewrite (b_transport_abort _ _ _ _ _ Hlock Hsrc Hne). simpl.
    split; [|split; [done|split; [done|]]].
    + unfold source_consistent. by rewrite Hsrc.
    + rewrite <- (app_nil_r (rx_monitor _ _ _)). apply egress_ports_rx_monitor.
Qed.

(** What a call of [nb_transport_fw] can do: pass a configuration frame
    through, die on the assertion before any egress call, or learn, forward
    and return. *)
Lemma nb_transport_fw_cases rxPortId trans phase delay s :
  let r := nb_transport_fw rxPortId trans phase delay s in
  (config_extension trans = true
   ∧ r = mkRun (Returned (TLM_COMPLETED,
                          set_response_status TLM_OK_RESPONSE trans,
                          phase, delay)) s [])
  ∨ (config_extension trans = false
     ∧ ¬ source_consistent (dMacCache (sw s)) rxPortId trans
     ∧ outcome r = AssertionFailed
     ∧ dMacCache (sw (final r)) = dMacCache (sw s)
     ∧ egress_ports (events r) = [])
  ∨ (config_extension trans = false
     ∧ source_consistent (dMacCache (sw s)) rxPortId trans
     ∧ (∃ out, outcome r = Returned out)
     ∧ dMacCache (sw (final r)) = learnt (dMacCache (sw s)) rxPortId trans).
Proof.
  intros r. subst r.
  destruct (config_extension trans) eqn:Hcfg.
  { left. split; [done|]. by apply nb_transport_fw_config. }
  right.
  destruct (source_consistent_dec (dMacCache (sw s)) rxPortId trans)
    as [Hsrc|(second & Hsrc & Hne)].
  - right. do 2 (split; [done|]).
    destruct (learnt (dMacCache (sw s)) rxPortId trans
                !! hashMacAddr (destAddr (data trans))) as [portId|] eqn:Hdst.
    + destruct (tx_nb portId (world s)
                  (set_response_status TLM_OK_RESPONSE trans) BEGIN_REQ delay)
        as [[[[w t'] ph'] d'] ret] eqn:Htx.
      rewrite (nb_transport_fw_unicast _ _ _ _ _ _ _ _ _ _ _ Hcfg Hsrc Hdst Htx).
      simpl. eauto.
    + rewrite (nb_transport_fw_flood _ _ _ _ _ Hcfg Hsrc Hdst). simpl.
      rewrite nb_flood_sw. simpl. split; [|done].
      destruct (nb_flood_result (Z.to_nat (dNumPorts (sw s))) rxPortId
                  TLM_COMPLETED 0 (set_response_status TLM_OK_RESPONSE trans)
                  phase delay
                  (mkSim (with_dMacCache
                            (learnt (dMacCache (sw s)) rxPortId trans) (sw s))
                     (world s)))
        as (ret' & t' & ph' & d' & Hout & _). eauto.
  - left. split; [done|].
    rewrite (nb_transport_fw_abort _ _ _ _ _ _ Hcfg Hsrc Hne). simpl.
    split; [|split; [done|split; [done|]]].
    + unfold source_consistent. by rewrite Hsrc.
    + rewrite <- (app_nil_r (rx_monitor _ _ _)). apply egress_ports_rx_monitor.
Qed.

(** A call that finds the mutex free does not wait. *)
Lemma b_transport_acquires rxPortId trans delay s :
  dBTransportLock (sw s) = false →
  outcome (b_transport rxPortId trans delay s) ≠ Suspended.
Proof.
  intros Hlock.
  pose proof (b_transport_cases rxPortId trans delay s) as Hb. simpl in Hb.
  destruct Hb as [[? _]|[(_ & _ & -> & _)|(_ & _ & [out ->] & _)]];
    congruence.
Qed.

(** ** What is forwarded on each path *)

Lemma learnt_dest_unlearned m rxPortId trans :
  m !! hashMacAddr (destAddr (data trans)) = None →
  hashMacAddr (destAddr (data trans)) ≠ hashMacAddr (srcAddr (data trans)) →
  learnt m rxPortId trans !! hashMacAddr (destAddr (data trans)) = None.
Proof.
  intros Hdst Hne. by rewrite learnt_lookup_other.
Qed.

Lemma b_unicast_ports rxPortId trans delay s portId :
  dBTransportLock (sw s) = false →
  source_consistent (dMacCache (sw s)) rxPortId trans →
  learnt (dMacCache (sw s)) rxPortId trans !! hashMacAddr (destAddr (data trans))
    = Some portId →
  egress_ports (events (b_transport rxPortId trans delay s)) = [portId].
Proof.
  intros Hlock Hsrc Hdst.
  destruct (tx_b portId (world s) trans delay) as [[w t'] d'] eqn:Htx.
  rewrite (b_transport_unicast _ _ _ _ _ _ _ _ Hlock Hsrc Hdst Htx). simpl.
  by rewrite egress_ports_rx_monitor, egress_ports_stdout_monitor.
Qed.

Lemma nb_unicast_ports rxPortId trans phase delay s portId :
  config_extension trans = false →
  source_consistent (dMacCache (sw s)) rxPortId trans →
  learnt (dMacCache (sw s)) rxPortId trans !! hashMacAddr (destAddr (data trans))
    = Some portId →
  egress_ports (events (nb_transport_fw rxPortId trans phase delay s)) = [portId].
Proof.
  intros Hcfg Hsrc Hdst.
  destruct (tx_nb portId (world s) (set_response_status TLM_OK_RESPONSE trans)
              BEGIN_REQ delay) as [[[[w t'] ph'] d'] ret] eqn:Htx.
  rewrite (nb_transport_fw_unicast _ _ _ _ _ _ _ _ _ _ _ Hcfg Hsrc Hdst Htx).
  simpl. by rewrite egress_ports_rx_monitor, egress_ports_tx_monitor.
Qed.

Lemma b_flood_all_ports rxPortId trans delay s :
  valid_port (sw s) rxPortId →
  dBTransportLock (sw s) = false →
  source_consistent (dMacCache (sw s)) rxPortId trans →
  learnt (dMacCache (sw s)) rxPortId trans !! hashMacAddr (destAddr (data trans))
    = None →
  egress_ports (events (b_transport rxPortId trans delay s))
    `prefix_of` filter (λ p, p ≠ rxPortId) (seqZ 0 (dNumPorts (sw s)))
  ∧ (Forall egress_ok (events (b_transport rxPortId trans delay s)) →
     egress_ports (events (b_transport rxPortId trans delay s))
     = filter (λ p, p ≠ rxPortId) (seqZ 0 (dNumPorts (sw s)))).
Proof.
  intros Hport Hlock Hsrc Hdst.
  rewrite (b_transport_flood _ _ _ _ _ Hlock Hsrc Hdst eq_refl). simpl.
  rewrite egress_ports_rx_monitor, egress_ports_snoc_wait,
    Forall_egress_ok_rx_monitor, Forall_egress_ok_snoc_wait.
  match goal with
  | |- context [b_flood ?n ?i ?rx ?t ?d ?s0] =>
      pose proof (b_flood_ports_prefix n rx i t d s0) as Hpre;
      pose proof (b_flood_ports_all n rx i t d s0) as Hall
  end.
  rewrite (to_uint32_port _ _ Hport), Z2Nat.id in Hpre, Hall
    by (destruct Hport; lia).
  by split.
Qed.

Lemma nb_flood_all_ports rxPortId trans phase delay s :
  valid_port (sw s) rxPortId →
  config_extension trans = false →
  source_consistent (dMacCache (sw s)) rxPortId trans →
  learnt (dMacCache (sw s)) rxPortId trans !! hashMacAddr (destAddr (data trans))
    = None →
  egress_ports (events (nb_transport_fw rxPortId trans phase delay s))
    `prefix_of` filter (λ p, p ≠ rxPortId) (seqZ 0 (dNumPorts (sw s)))
  ∧ (Forall egress_ok (events (nb_transport_fw rxPortId trans phase delay s)) →
     egress_ports (events (nb_transport_fw rxPortId trans phase delay s))
     = filter (λ p, p ≠ rxPortId) (seqZ 0 (dNumPorts (sw s)))).
Proof.
  intros Hport Hcfg Hsrc Hdst.
  rewrite (nb_transport_fw_flood _ _ _ _ _ Hcfg Hsrc Hdst). simpl.
  rewrite egress_ports_rx_monitor, Forall_egress_ok_rx_monitor.
  match goal with
  | |- context [nb_flood ?n ?i ?rx ?ret ?t ?ph ?d ?s0] =>
      pose proof (nb_flood_ports_prefix n rx ret i t ph d s0) as Hpre;
      pose proof (nb_flood_ports_all n rx ret i t ph d s0) as Hall
  end.
  rewrite (to_uint32_port _ _ Hport), Z2Nat.id in Hpre, Hall
    by (destruct Hport; lia).
  by split.
Qed.

(** ** Learning *)

(** C3, as amended.  A frame whose source fingerprint is already bound to a
    port other than the ingress port makes [b_transport], and
    [nb_transport_fw] when the frame carries no configuration extension,
    stop on the failed assertion: no egress port is called and the learning
    table is left as it was. *)
Theorem inconsistent_binding_aborts rxPortId trans phase delay s second :
  valid_port (sw s) rxPortId →
  dMacCache (sw s) !! hashMacAddr (srcAddr (data trans)) = Some second →
  second ≠ rxPortId →
  (dBTransportLock (sw s) = false →
   outcome (b_transport rxPortId trans delay s) = AssertionFailed
   ∧ egress_ports (events (b_transport rxPortId trans delay s)) = []
   ∧ dMacCache (sw (final (b_transport rxPortId trans delay s)))
     = dMacCache (sw s))
  ∧ (config_extension trans = false →
     outcome (nb_transport_fw rxPortId trans phase delay s) = AssertionFailed
     ∧ egress_ports (events (nb_transport_fw rxPortId trans phase delay s)) = []
     ∧ dMacCache (sw (final (nb_transport_fw rxPortId trans phase delay s)))
       = dMacCache (sw s)).
Proof.
  intros Hport Hsrc Hne.
  assert (to_uint32 rxPortId ≠ second) as Hne'
    by (rewrite (to_uint32_port _ _ Hport); congruence).
  split.
  - intros Hlock. rewrite (b_transport_abort _ _ _ _ _ Hlock Hsrc Hne'). simpl.
    split; [done|split; [|done]].
    rewrite <- (app_nil_r (rx_monitor _ _ _)). apply egress_ports_rx_monitor.
  - intros Hcfg. rewrite (nb_transport_fw_abort _ _ _ _ _ _ Hcfg Hsrc Hne').
    simpl. split; [done|split; [|done]].
    rewrite <- (app_nil_r (rx_monitor _ _ _)). apply egress_ports_rx_monitor.
Qed.

(** C9.  Whatever a transport call does, on either path, every binding of
    the learning table is still there afterwards, with the same port; and a
    frame whose source fingerprint is already bound to its ingress port
    leaves the table as it was and does not fail the assertion. *)
Theorem learning_table_only_grows rxPortId trans phase delay s :
  (∀ k v, dMacCache (sw s) !! k = Some v →
     dMacCache (sw (final (b_transport rxPortId trans delay s))) !! k = Some v
     ∧ dMacCache (sw (final (nb_transport_fw rxPortId trans phase delay s))) !! k
       = Some v)
  ∧ (dMacCache (sw s) !! hashMacAddr (srcAddr (data trans))
       = Some (to_uint32 rxPortId) →
     dMacCache (sw (final (b_transport rxPortId trans delay s)))
       = dMacCache (sw s)
     ∧ outcome (b_transport rxPortId trans delay s) ≠ AssertionFailed
     ∧ dMacCache (sw (final (nb_transport_fw rxPortId trans phase delay s)))
       = dMacCache (sw s)
     ∧ outcome (nb_transport_fw rxPortId trans phase delay s) ≠ AssertionFailed).
Proof.
  pose proof (b_transport_cases rxPortId trans delay s) as Hb.
  pose proof (nb_transport_fw_cases rxPortId trans phase delay s) as Hnb.
  simpl in Hb, Hnb. split.
  - intros k v Hk. split.
    + destruct Hb as [[_ ->]|[(_ & _ & _ & -> & _)|(_ & _ & _ & -> & _)]];
        simpl; auto using learnt_lookup_mono.
    + destruct Hnb as [[_ ->]|[(_ & _ & _ & -> & _)|(_ & _ & _ & ->)]];
        simpl; auto using learnt_lookup_mono.
  - intros Hsrc.
    assert (source_consistent (dMacCache (sw s)) rxPortId trans) as Hok
      by (unfold source_consistent; by rewrite Hsrc).
    pose proof (learnt_lookup_known _ rxPortId _ _ Hsrc) as Hsame.
    split; [|split; [|split]].
    + destruct Hb as [[_ ->]|[(_ & _ & _ & -> & _)|(_ & _ & _ & -> & _)]]; done.
    + destruct Hb as [[_ ->]|[(_ & Hbad & _)|(_ & _ & [out ->] & _)]]; done.
    + destruct Hnb as [[_ ->]|[(_ & _ & _ & -> & _)|(_ & _ & _ & ->)]]; done.
    + destruct Hnb as [[_ ->]|[(_ & Hbad & _)|(_ & _ & [out ->] & _)]]; done.
Qed.


(** C4.  On both paths (for [nb_transport_fw]: when the frame carries no
    configuration extension) the source fingerprint is bound to the ingress
    port first, if it was not bound, and the destination fingerprint is
    looked up in the table so obtained.  So a frame whose destination
    fingerprint is its own, so far unlearned, source fingerprint is sent to
    exactly one port, its own ingress port, and not flooded. *)
Theorem learning_precedes_lookup rxPortId trans phase delay s :
  valid_port (sw s) rxPortId →
  dMacCache (sw s) !! hashMacAddr (srcAddr (data trans)) = None →
  let table' :=
    <[hashMacAddr (srcAddr (data trans)) := rxPortId]> (dMacCache (sw s)) in
  (dBTransportLock (sw s) = false →
   dMacCache (sw (final (b_transport rxPortId trans delay s))) = table'
   ∧ (∀ p, table' !! hashMacAddr (destAddr (data trans)) = Some p →
        egress_ports (events (b_transport rxPortId trans delay s)) = [p])
   ∧ (hashMacAddr (destAddr (data trans)) = hashMacAddr (srcAddr (data trans)) →
        egress_ports (events (b_transport rxPortId trans delay s)) = [rxPortId]))
  ∧ (config_extension trans = false →
     dMacCache (sw (final (nb_transport_fw rxPortId trans phase delay s))) = table'
     ∧ (∀ p, table' !! hashMacAddr (destAddr (data trans)) = Some p →
          egress_ports (events (nb_transport_fw rxPortId trans phase delay s)) = [p])
     ∧ (hashMacAddr (destAddr (data trans)) = hashMacAddr (srcAddr (data trans)) →
          egress_ports (events (nb_transport_fw rxPortId trans phase delay s))
          = [rxPortId])).
Proof.
  intros Hport Hsrc table'.
  assert (source_consistent (dMacCache (sw s)) rxPortId trans) as Hok
    by (unfold source_consistent; by rewrite Hsrc).
  assert (learnt (dMacCache (sw s)) rxPortId trans = table') as Hlearnt
    by (rewrite (learnt_lookup_fresh _ _ _ Hsrc), (to_uint32_port _ _ Hport);
        done).
  split.
  - intros Hlock.
    pose proof (b_transport_cases rxPortId trans delay s) as Hb. simpl in Hb.
    split; [|split].
    + destruct Hb as [[? _]|[(_ & ? & _)|(_ & _ & _ & -> & _)]]; congruence.
    + intros p Hp. apply b_unicast_ports; [done..|]. by rewrite Hlearnt.
    + intros Heq. apply b_unicast_ports; [done..|].
      rewrite Hlearnt, Heq. apply lookup_insert_eq.
  - intros Hcfg.
    pose proof (nb_transport_fw_cases rxPortId trans phase delay s) as Hnb.
    simpl in Hnb. split; [|split].
    + destruct Hnb as [[? _]|[(_ & ? & _)|(_ & _ & _ & ->)]]; congruence.
    + intros p Hp. apply nb_unicast_ports; [done..|]. by rewrite Hlearnt.
    + intros Heq. apply nb_unicast_ports; [done..|].
      rewrite Hlearnt, Heq. apply lookup_insert_eq.
Qed.

(** ** Forwarding *)

(** C1, as amended.  On a switch with [dNumPorts] ports, a frame arriving on
    port [rxPortId] whose destination fingerprint is unbound and differs
    from its source fingerprint, and whose source fingerprint is unbound or
    bound to [rxPortId], is handed to the ports [0 .. dNumPorts-1] other than
    [rxPortId], each once, in ascending order, by [b_transport] and, when
    the frame carries no configuration extension, by [nb_transport_fw],
    provided every egress call leaves the response status OK (and returns
    TLM_COMPLETED on the non-blocking path). *)
Theorem flood_reaches_every_other_port rxPortId trans phase delay s :
  valid_port (sw s) rxPortId →
  dMacCache (sw s) !! hashMacAddr (destAddr (data trans)) = None →
  hashMacAddr (destAddr (data trans)) ≠ hashMacAddr (srcAddr (data trans)) →
  source_consistent (dMacCache (sw s)) rxPortId trans →
  (dBTransportLock (sw s) = false →
   Forall egress_ok (events (b_transport rxPortId trans delay s)) →
   egress_ports (events (b_transport rxPortId trans delay s))
     = filter (λ p, p ≠ rxPortId) (seqZ 0 (dNumPorts (sw s)))
   ∧ all_ports_but (dNumPorts (sw s)) rxPortId
       (egress_ports (events (b_transport rxPortId trans delay s))))
  ∧ (config_extension trans = false →
     Forall egress_ok (events (nb_transport_fw rxPortId trans phase delay s)) →
     egress_ports (events (nb_transport_fw rxPortId trans phase delay s))
       = filter (λ p, p ≠ rxPortId) (seqZ 0 (dNumPorts (sw s)))
     ∧ all_ports_but (dNumPorts (sw s)) rxPortId
         (egress_ports (events (nb_transport_fw rxPortId trans phase delay s)))).
Proof.
  intros Hport Hdst Hne Hsrc.
  pose proof (learnt_dest_unlearned _ rxPortId _ Hdst Hne) as Hdst'.
  split.
  - intros Hlock Hok.
    destruct (b_flood_all_ports _ _ delay _ Hport Hlock Hsrc Hdst') as [_ Hall].
    rewrite (Hall Hok). split; [done|apply all_ports_but_flood_targets].
  - intros Hcfg Hok.
    destruct (nb_flood_all_ports _ _ phase delay _ Hport Hcfg Hsrc Hdst')
      as [_ Hall].
    rewrite (Hall Hok). split; [done|apply all_ports_but_flood_targets].
Qed.

(** C2, as amended.  Once the destination fingerprint is bound to port [j],
    a frame for it arriving on another port, whose source fingerprint is
    unbound or bound to that ingress port, causes exactly one egress call,
    to port [j], on [b_transport] and, when the frame carries no
    configuration extension, on [nb_transport_fw]. *)
Theorem learned_destination_is_unicast rxPortId trans phase delay s j :
  valid_port (sw s) rxPortId →
  dMacCache (sw s) !! hashMacAddr (destAddr (data trans)) = Some j →
  rxPortId ≠ j →
  source_consistent (dMacCache (sw s)) rxPortId trans →
  (dBTransportLock (sw s) = false →
   egress_ports (events (b_transport rxPortId trans delay s)) = [j])
  ∧ (config_extension trans = false →
     egress_ports (events (nb_transport_fw rxPortId trans phase delay s)) = [j]).
Proof.
  intros Hport Hdst Hne Hsrc.
  pose proof (learnt_lookup_mono _ rxPortId trans _ _ Hdst) as Hdst'.
  split; intros ?; [by apply b_unicast_ports|by apply nb_unicast_ports].
Qed.

(** C10, as amended.  When the destination lookup finds the ingress port
    itself (the destination fingerprint was bound to it, or is the frame's
    own source fingerprint, unbound so far) and the source fingerprint is
    unbound or bound to the ingress port, the only egress call is the one
    to the ingress port, on [b_transport] and, when the frame carries no
    configuration extension, on [nb_transport_fw]: the unicast branch does
    not leave the ingress port out. *)
Theorem frame_for_ingress_port_is_reflected rxPortId trans phase delay s :
  valid_port (sw s) rxPortId →
  dMacCache (sw s) !! hashMacAddr (destAddr (data trans)) = Some rxPortId
  ∨ (hashMacAddr (destAddr (data trans)) = hashMacAddr (srcAddr (data trans))
     ∧ dMacCache (sw s) !! hashMacAddr (srcAddr (data trans)) = None) →
  source_consistent (dMacCache (sw s)) rxPortId trans →
  (dBTransportLock (sw s) = false →
   egress_ports (events (b_transport rxPortId trans delay s)) = [rxPortId])
  ∧ (config_extension trans = false →
     egress_ports (events (nb_transport_fw rxPortId trans phase delay s))
     = [rxPortId]).
Proof.
  intros Hport Hdst Hsrc.
  assert (learnt (dMacCache (sw s)) rxPortId trans
            !! hashMacAddr (destAddr (data trans)) = Some rxPortId) as Hdst'.
  { destruct Hdst as [Hdst|[Heq Hfresh]].
    - by apply learnt_lookup_mono.
    - rewrite (learnt_lookup_fresh _ _ _ Hfresh), Heq,
        (to_uint32_port _ _ Hport). apply lookup_insert_eq. }
  split; intros ?; [by apply b_unicast_ports|by apply nb_unicast_ports].
Qed.

(** ** Floods that are cut short *)

(** C6.  While [b_transport] floods a frame: if the egress call to port [p]
    leaves a response status [st] other than OK, it is the last egress call
    (no port above [p] is called), the frame goes back to the caller with
    [st] as its response status, and the mutex has been released, so that
    the next call of [b_transport] gets it. *)
Theorem blocking_flood_stops_at_failure rxPortId trans delay s pre p st post :
  valid_port (sw s) rxPortId →
  dBTransportLock (sw s) = false →
  source_consistent (dMacCache (sw s)) rxPortId trans →
  dMacCache (sw s) !! hashMacAddr (destAddr (data trans)) = None →
  hashMacAddr (destAddr (data trans)) ≠ hashMacAddr (srcAddr (data trans)) →
  b_calls (events (b_transport rxPortId trans delay s)) = pre ++ (p, st) :: post →
  st ≠ TLM_OK_RESPONSE →
  post = []
  ∧ (∀ q, p < q → q ∉ egress_ports (events (b_transport rxPortId trans delay s)))
  ∧ (∃ t' d', outcome (b_transport rxPortId trans delay s) = Returned (t', d')
              ∧ response_status t' = st)
  ∧ dBTransportLock (sw (final (b_transport rxPortId trans delay s))) = false
  ∧ (∀ rxPortId' trans' delay',
       outcome (b_transport rxPortId' trans' delay'
                  (final (b_transport rxPortId trans delay s))) ≠ Suspended).
Proof.
  intros Hport Hlock Hsrc Hdst Hne Hcalls Hst.
  pose proof (learnt_dest_unlearned _ rxPortId _ Hdst Hne) as Hdst'.
  assert (dBTransportLock (sw (final (b_transport rxPortId trans delay s)))
          = false) as Hunlocked.
  { pose proof (b_transport_cases rxPortId trans delay s) as Hb. simpl in Hb.
    destruct Hb as [[? _]|[(_ & ? & _)|(_ & _ & _ & _ & ?)]]; congruence. }
  cut (post = []
       ∧ (∀ q, p < q →
            q ∉ egress_ports (events (b_transport rxPortId trans delay s)))
       ∧ (∃ t' d', outcome (b_transport rxPortId trans delay s)
                   = Returned (t', d') ∧ response_status t' = st)).
  { intros (? & ? & ?). repeat split; try done.
    intros rxPortId' trans' delay'. by apply b_transport_acquires. }
  clear Hunlocked.
  destruct (b_flood_all_ports _ _ delay _ Hport Hlock Hsrc Hdst') as [Hpre _].
  revert Hcalls Hpre.
  rewrite (b_transport_flood _ _ _ _ _ Hlock Hsrc Hdst' eq_refl). simpl.
  rewrite b_calls_rx_monitor, b_calls_snoc_wait, egress_ports_rx_monitor,
    egress_ports_snoc_wait.
  match goal with
  | |- context [b_flood ?n ?i ?rx ?t ?d ?s0] =>
      pose proof (b_flood_stops n rx i t d s0 pre p st post) as Hstop;
      pose proof (b_flood_status n rx i t d s0) as (t' & d' & Hout & Hstatus);
      rewrite (b_flood_ports_calls n rx i t d s0)
  end.
  intros Hcalls Hpre.
  assert (post = []) as -> by auto.
  rewrite Hcalls in Hstatus, Hpre. rewrite last_snoc in Hstatus.
  split; [done|split; [|eauto]].
  intros q Hq Hin.
  pose proof (prefix_sorted _ _ Hpre (flood_targets_sorted _ _)) as Hsorted.
  rewrite Hcalls in Hin.
  rewrite fmap_app in Hsorted, Hin. simpl in Hsorted, Hin.
  apply elem_of_app in Hin as [Hin|Hin].
  - assert (q < p); [|lia].
    apply (StronglySorted_app_1_elem_of _ _ _ q p Hsorted Hin).
    apply list_elem_of_singleton. reflexivity.
  - apply list_elem_of_singleton in Hin. lia.
Qed.

Lemma filter_not_completed_nil (rets : list tlm_sync_enum) :
  Forall (λ r, r = TLM_COMPLETED) rets →
  filter (λ r, r ≠ TLM_COMPLETED) rets = [].
Proof.
  induction 1 as [|r rets Hr _ IH]; [done|].
  by rewrite filter_cons_False by (intros ?; done).
Qed.

(** C7.  While [nb_transport_fw] floods a frame, the target ports are
    called in ascending order, each with the phase set to BEGIN_REQ; a call
    that returns something else than TLM_COMPLETED or leaves a response
    status other than OK is the last one, and nothing else ends the loop
    before every target port has been called; the function returns the
    value of the last call that did not return TLM_COMPLETED, and
    TLM_COMPLETED when every call returned that. *)
Theorem nonblocking_flood_protocol rxPortId trans phase delay s :
  valid_port (sw s) rxPortId →
  config_extension trans = false →
  source_consistent (dMacCache (sw s)) rxPortId trans →
  dMacCache (sw s) !! hashMacAddr (destAddr (data trans)) = None →
  hashMacAddr (destAddr (data trans)) ≠ hashMacAddr (srcAddr (data trans)) →
  let r := nb_transport_fw rxPortId trans phase delay s in
  let calls := nb_calls (events r) in
  let targets := filter (λ p, p ≠ rxPortId) (seqZ 0 (dNumPorts (sw s))) in
  egress_ports (events r) = nb_call_port <$> calls
  ∧ (nb_call_port <$> calls) `prefix_of` targets
  ∧ StronglySorted Z.lt (nb_call_port <$> calls)
  ∧ Forall (λ c, nb_call_phase c = BEGIN_REQ) calls
  ∧ (∀ pre c post,
       calls = pre ++ c :: post →
       nb_call_ret c ≠ TLM_COMPLETED ∨ nb_call_status c ≠ TLM_OK_RESPONSE →
       post = [])
  ∧ (nb_call_port <$> calls = targets
     ∨ ∃ c, last calls = Some c
          ∧ (nb_call_ret c ≠ TLM_COMPLETED
             ∨ nb_call_status c ≠ TLM_OK_RESPONSE))
  ∧ ∃ ret t' ph' d',
      outcome r = Returned (ret, t', ph', d')
      ∧ ret = default TLM_COMPLETED
                (last (filter (λ x, x ≠ TLM_COMPLETED) (nb_call_ret <$> calls)))
      ∧ (Forall (λ c, nb_call_ret c = TLM_COMPLETED) calls →
         ret = TLM_COMPLETED).
Proof.
  intros Hport Hcfg Hsrc Hdst Hne r calls targets.
  pose proof (learnt_dest_unlearned _ rxPortId _ Hdst Hne) as Hdst'.
  destruct (nb_flood_all_ports _ _ phase delay _ Hport Hcfg Hsrc Hdst')
    as [Hpre _].
  fold r targets in Hpre. subst calls. revert Hpre. subst r.
  rewrite (nb_transport_fw_flood _ _ _ _ _ Hcfg Hsrc Hdst'). simpl.
  rewrite nb_calls_rx_monitor, egress_ports_rx_monitor.
  match goal with
  | |- context [nb_flood ?n ?i ?rx ?ret ?t ?ph ?d ?s0] =>
      pose proof (nb_flood_ports_calls n rx ret i t ph d s0) as Hports;
      pose proof (nb_flood_phase n rx ret i t ph d s0) as Hphase;
      pose proof (nb_flood_stops n rx ret i t ph d s0) as Hstop;
      pose proof (nb_flood_complete_or_stopped n rx ret i t ph d s0) as Hend;
      pose proof (nb_flood_result n rx ret i t ph d s0)
        as (ret' & t' & ph' & d' & Hout & Hret & _)
  end.
  rewrite (to_uint32_port _ _ Hport), Z2Nat.id in Hend
    by (destruct Hport; lia).
  fold targets in Hend. rewrite Hports in Hend |- *. intros Hpre.
  split; [done|split; [done|split; [|split; [done|split; [done|split]]]]].
  - apply (prefix_sorted _ _ Hpre), flood_targets_sorted.
  - done.
  - exists ret', t', ph', d'. split; [done|split; [done|]].
    intros Hall. rewrite Hret, filter_not_completed_nil; [done|].
    by apply Forall_fmap.
Qed.

(** ** The two paths against the specification's forwarding engine *)

Lemma source_consistent_addr m rxPortId t1 t2 :
  srcAddr (data t1) = srcAddr (data t2) →
  source_consistent m rxPortId t1 → source_consistent m rxPortId t2.
Proof. unfold source_consistent. by intros ->. Qed.

Lemma learnt_addr m rxPortId t1 t2 :
  srcAddr (data t1) = srcAddr (data t2) →
  learnt m rxPortId t1 = learnt m rxPortId t2.
Proof. unfold learnt. by intros ->. Qed.

Lemma spec_learn_learnt sw rxPortId trans :
  valid_port sw rxPortId →
  spec_learn (dMacCache sw) (hashMacAddr (srcAddr (data trans))) rxPortId
  = if decide (source_consistent (dMacCache sw) rxPortId trans)
    then Some (learnt (dMacCache sw) rxPortId trans) else None.
Proof.
  intros Hport.
  destruct (decide (source_consistent (dMacCache sw) rxPortId trans))
    as [Hsrc|Hsrc]; revert Hsrc;
    unfold spec_learn, source_consistent, learnt;
    rewrite (to_uint32_port _ _ Hport);
    destruct (dMacCache sw !! hashMacAddr (srcAddr (data trans))) as [bound|];
    intros Hsrc; try done;
    destruct (decide (bound = rxPortId)); congruence.
Qed.

(** C5, as amended.  For the same learning table, the same ingress port and
    frames with the same source and destination addresses, of which the one
    given to [nb_transport_fw] carries no configuration extension, both
    paths act on the one decision the forwarding engine of the
    specification takes: both stop on the assertion when [learn] fails, and
    otherwise both leave the table [learn] gives and both carry out the
    same decision: the one egress call of the same unicast, or the same
    ascending flood list, of which each path calls the ports in order, all
    of them unless one of its own egress calls goes wrong (then an initial
    segment).  When no egress call goes wrong on either path, both call
    the same ports in the same order. *)
Theorem both_paths_take_the_same_decision
    rxPortId trans_b trans_nb phase delay_b delay_nb s :
  valid_port (sw s) rxPortId →
  srcAddr (data trans_b) = srcAddr (data trans_nb) →
  destAddr (data trans_b) = destAddr (data trans_nb) →
  dBTransportLock (sw s) = false →
  config_extension trans_nb = false →
  let rb := b_transport rxPortId trans_b delay_b s in
  let rnb := nb_transport_fw rxPortId trans_nb phase delay_nb s in
  match spec_decide (dNumPorts (sw s)) (dMacCache (sw s))
          (srcAddr (data trans_b)) (destAddr (data trans_b)) rxPortId with
  | None =>
      outcome rb = AssertionFailed ∧ outcome rnb = AssertionFailed
      ∧ egress_ports (events rb) = [] ∧ egress_ports (events rnb) = []
      ∧ dMacCache (sw (final rb)) = dMacCache (sw (final rnb))
  | Some (table', decision) =>
      (∃ out, outcome rb = Returned out) ∧ (∃ out, outcome rnb = Returned out)
      ∧ dMacCache (sw (final rb)) = table'
      ∧ dMacCache (sw (final rnb)) = table'
      ∧ carries_out decision (events rb)
      ∧ carries_out decision (events rnb)
      ∧ (Forall egress_ok (events rb) → Forall egress_ok (events rnb) →
         egress_ports (events rb) = egress_ports (events rnb))
  end.
Proof.
  intros Hport Hsa Hda Hlock Hcfg rb rnb. subst rb rnb.
  unfold spec_decide. rewrite (spec_learn_learnt _ _ _ Hport).
  pose proof (b_transport_cases rxPortId trans_b delay_b s) as Hb.
  pose proof (nb_transport_fw_cases rxPortId trans_nb phase delay_nb s) as Hnb.
  simpl in Hb, Hnb.
  destruct (decide (source_consistent (dMacCache (sw s)) rxPortId trans_b))
    as [Hsrc|Hsrc]; simpl.
  - pose proof (source_consistent_addr _ _ _ _ Hsa Hsrc) as Hsrc'.
    destruct Hb as [[? _]|[(_ & ? & _)|(_ & _ & Hrb & Htb & _)]];
      [congruence|done|].
    destruct Hnb as [[? _]|[(_ & ? & _)|(_ & _ & Hrnb & Htnb)]];
      [congruence|done|].
    rewrite <- (learnt_addr _ _ _ _ Hsa) in Htnb.
    do 4 (split; [done|]).
    destruct (learnt (dMacCache (sw s)) rxPortId trans_b
                !! hashMacAddr (destAddr (data trans_b))) as [p|] eqn:Hdst;
      simpl.
    + assert (egress_ports (events (b_transport rxPortId trans_b delay_b s))
              = [p]) as Hports_b by (by apply b_unicast_ports).
      assert (egress_ports
                (events (nb_transport_fw rxPortId trans_nb phase delay_nb s))
              = [p]) as Hports_nb.
      { apply nb_unicast_ports; [done..|].
        by rewrite <- (learnt_addr _ _ _ _ Hsa), <- Hda. }
      split; [exact Hports_b|]. split; [exact Hports_nb|].
      intros _ _. by rewrite Hports_b, Hports_nb.
    + assert (learnt (dMacCache (sw s)) rxPortId trans_nb
                !! hashMacAddr (destAddr (data trans_nb)) = None) as Hdst'
        by (by rewrite <- (learnt_addr _ _ _ _ Hsa), <- Hda).
      destruct (b_flood_all_ports _ _ delay_b _ Hport Hlock Hsrc Hdst)
        as [Hpre_b Hall_b].
      destruct (nb_flood_all_ports _ _ phase delay_nb _ Hport Hcfg Hsrc' Hdst')
        as [Hpre_nb Hall_nb].
      split; [by split|]. split; [by split|].
      intros Hok_b Hok_nb. by rewrite (Hall_b Hok_b), (Hall_nb Hok_nb).
  - assert (¬ source_consistent (dMacCache (sw s)) rxPortId trans_nb) as Hsrc'
      by (intros H; apply Hsrc; by apply (source_consistent_addr _ _ trans_nb)).
    destruct Hb as [[? _]|[(_ & _ & ? & Htb & ?)|(_ & ? & _)]];
      [congruence| |done].
    destruct Hnb as [[? _]|[(_ & _ & ? & Htnb & ?)|(_ & ? & _)]];
      [congruence| |done].
    rewrite Htb, Htnb. done.
Qed.

End Switch.

Arguments mkSim {World} _ _.
Arguments sw {World} _.
Arguments world {World} _.
Arguments outcome {World A} _.
Arguments final {World A} _.
Arguments events {World A} _.
Arguments b_transport {World} tx_b rxPortId trans delay _.
Arguments nb_transport_fw {World} tx_nb rxPortId trans phase delay _.

(** * Scenarios

    Concrete switches, frames and TX sockets, on which the transport
    functions are run. *)

Module Scenario.

Definition mac1 : list Byte.byte :=
  [Byte.xaa; Byte.xbb; Byte.xcc; Byte.x00; Byte.x00; Byte.x01].
Definition mac2 : list Byte.byte :=
  [Byte.xaa; Byte.xbb; Byte.xcc; Byte.x00; Byte.x00; Byte.x02].
Definition mac3 : list Byte.byte :=
  [Byte.xaa; Byte.xbb; Byte.xcc; Byte.x00; Byte.x00; Byte.x03].

(** A frame as a traffic source hands it over: the response status of a
    fresh [tlm_generic_payload] is TLM_INCOMPLETE_RESPONSE. *)
Definition frame (source destination : list Byte.byte) : tlm_generic_payload :=
  mkPayload (mkEtherPacket destination source []) TLM_INCOMPLETE_RESPONSE false.

(** The same with a [uvmc_xl_config] extension attached. *)
Definition config_frame (source destination : list Byte.byte)
    : tlm_generic_payload :=
  mkPayload (mkEtherPacket destination source []) TLM_INCOMPLETE_RESPONSE true.

(** A switch with monitoring off and the mutex free. *)
Definition switch (numPorts : Z) (table : gmap Z Z) : Sim unit :=
  mkSim (mkSwitch numPorts false table false) tt.

(** TX sockets that complete every call. *)
Definition tx_b_ok (portId : Z) (w : unit) (trans : tlm_generic_payload)
    (delay : sc_time) : unit * tlm_generic_payload * sc_time :=
  (w, set_response_status TLM_OK_RESPONSE trans, delay).

Definition tx_nb_ok (portId : Z) (w : unit) (trans : tlm_generic_payload)
    (phase : tlm_phase) (delay : sc_time)
    : unit * tlm_generic_payload * tlm_phase * sc_time * tlm_sync_enum :=
  (w, set_response_status TLM_OK_RESPONSE trans, phase, delay, TLM_COMPLETED).

(** TX sockets of which the one on port [bad] reports an error. *)
Definition tx_b_failing (bad : Z) (portId : Z) (w : unit)
    (trans : tlm_generic_payload) (delay : sc_time)
    : unit * tlm_generic_payload * sc_time :=
  (w, set_response_status
        (if decide (portId = bad) then TLM_GENERIC_ERROR_RESPONSE
         else TLM_OK_RESPONSE) trans, delay).

(** TX sockets of which the one on port [slow] queues the frame. *)
Definition tx_nb_queueing (slow : Z) (portId : Z) (w : unit)
    (trans : tlm_generic_payload) (phase : tlm_phase) (delay : sc_time)
    : unit * tlm_generic_payload * tlm_phase * sc_time * tlm_sync_enum :=
  (w, set_response_status TLM_OK_RESPONSE trans, END_REQ, delay,
   if decide (portId = slow) then TLM_ACCEPTED else TLM_COMPLETED).

Ltac run := vm_compute; repeat first [reflexivity | constructor | split].

(** The fingerprints of the three addresses. *)
Example hashMacAddr_mac1 : hashMacAddr mac1 = 13417387.
Proof. reflexivity. Qed.

Example hashMacAddr_mac2 : hashMacAddr mac2 = 13417388.
Proof. reflexivity. Qed.

(** The additions wrap around at 2^32. *)
Example hashMacAddr_wraps :
  hashMacAddr [Byte.xff; Byte.xff; Byte.xff; Byte.xff; Byte.x01; Byte.x01] = 1.
Proof. reflexivity. Qed.

(** Distinct addresses can have the same fingerprint. *)
Example hashMacAddr_collision :
  hashMacAddr [Byte.x00; Byte.x00; Byte.x00; Byte.x00; Byte.x01; Byte.x02]
  = hashMacAddr [Byte.x00; Byte.x00; Byte.x00; Byte.x00; Byte.x02; Byte.x01].
Proof. reflexivity. Qed.

(** 3-port switch, nothing learned: a frame from [mac1] to [mac2] on port 0
    is flooded to ports 1 and 2, and [mac1] is learned on port 0. *)
Example first_frame_is_flooded :
  let r := b_transport tx_b_ok 0 (frame mac1 mac2) 0 (switch 3 ∅) in
  egress_ports (events r) = [1; 2]
  ∧ dMacCache (sw (final r)) = {[ hashMacAddr mac1 := 0 ]}.
Proof. split; reflexivity. Qed.

(** Then a frame from [mac2] to [mac1] on port 1 goes to port 0 only, and
    [mac2] is learned on port 1. *)
Example reply_is_unicast :
  let r := b_transport tx_b_ok 1 (frame mac2 mac1) 0
             (switch 3 {[ hashMacAddr mac1 := 0 ]}) in
  egress_ports (events r) = [0]
  ∧ dMacCache (sw (final r))
    = <[ hashMacAddr mac2 := 1 ]> {[ hashMacAddr mac1 := 0 ]}.
Proof. split; reflexivity. Qed.

(** Then a frame claiming [mac1] as its source on port 2 fails the
    assertion, and nothing is forwarded. *)
Example moved_source_fails :
  let r := b_transport tx_b_ok 2 (frame mac1 mac2) 0
             (switch 3 (<[ hashMacAddr mac2 := 1 ]> {[ hashMacAddr mac1 := 0 ]})) in
  outcome r = AssertionFailed ∧ egress_ports (events r) = [].
Proof. split; reflexivity. Qed.

End Scenario.

(** * The theorems on concrete runs *)

Import Scenario.

Ltac port_ok := unfold valid_port; simpl; lia.

(** ** C1 *)

(** A frame addressed to its own, still unlearned, source address is not
    flooded although its destination fingerprint is unbound when it
    arrives: the only egress call is to the ingress port.  A frame whose
    source fingerprint is bound to another port is not forwarded at all,
    and neither is, by [nb_transport_fw], a frame that carries the
    configuration extension. *)
Lemma flood_claim_counterexample :
  (dMacCache (sw (switch 3 ∅)) !! hashMacAddr (destAddr (data (frame mac1 mac1)))
     = None
   ∧ Forall egress_ok (events (b_transport tx_b_ok 0 (frame mac1 mac1) 0 (switch 3 ∅)))
   ∧ egress_ports (events (b_transport tx_b_ok 0 (frame mac1 mac1) 0 (switch 3 ∅)))
     = [0]
   ∧ ¬ all_ports_but 3 0
         (egress_ports
            (events (b_transport tx_b_ok 0 (frame mac1 mac1) 0 (switch 3 ∅)))))
  ∧ (dMacCache (sw (switch 3 {[ hashMacAddr mac1 := 0 ]}))
       !! hashMacAddr (destAddr (data (frame mac1 mac2))) = None
     ∧ egress_ports
         (events (b_transport tx_b_ok 2 (frame mac1 mac2) 0
                    (switch 3 {[ hashMacAddr mac1 := 0 ]}))) = [])
  ∧ (dMacCache (sw (switch 3 ∅))
       !! hashMacAddr (destAddr (data (config_frame mac1 mac2))) = None
     ∧ egress_ports
         (events (nb_transport_fw tx_nb_ok 0 (config_frame mac1 mac2) BEGIN_REQ 0
                    (switch 3 ∅))) = []).
Proof.
  split; [|split; split; reflexivity].
  split; [reflexivity|]. split; [run|]. split; [reflexivity|].
  intros [_ Hall]. specialize (Hall 1). destruct Hall as [_ Hall].
  assert (1 ∈ [0]) as Hin by (apply Hall; lia).
  apply list_elem_of_singleton in Hin. lia.
Qed.

Lemma flood_reaches_every_other_port_witness :
  valid_port (sw (switch 3 ∅)) 0
  ∧ dMacCache (sw (switch 3 ∅)) !! hashMacAddr (destAddr (data (frame mac1 mac2)))
    = None
  ∧ hashMacAddr (destAddr (data (frame mac1 mac2)))
    ≠ hashMacAddr (srcAddr (data (frame mac1 mac2)))
  ∧ source_consistent (dMacCache (sw (switch 3 ∅))) 0 (frame mac1 mac2)
  ∧ (egress_ports (events (b_transport tx_b_ok 0 (frame mac1 mac2) 0 (switch 3 ∅)))
       = filter (λ p, p ≠ 0) (seqZ 0 3)
     ∧ all_ports_but 3 0
         (egress_ports
            (events (b_transport tx_b_ok 0 (frame mac1 mac2) 0 (switch 3 ∅)))))
  ∧ (egress_ports
       (events (nb_transport_fw tx_nb_ok 0 (frame mac1 mac2) BEGIN_REQ 0
                  (switch 3 ∅)))
       = filter (λ p, p ≠ 0) (seqZ 0 3)
     ∧ all_ports_but 3 0
         (egress_ports
            (events (nb_transport_fw tx_nb_ok 0 (frame mac1 mac2) BEGIN_REQ 0
                       (switch 3 ∅))))).
Proof.
  assert (valid_port (sw (switch 3 ∅)) 0) as Hport by port_ok.
  assert (dMacCache (sw (switch 3 ∅))
            !! hashMacAddr (destAddr (data (frame mac1 mac2))) = None) as Hdst
    by reflexivity.
  assert (hashMacAddr (destAddr (data (frame mac1 mac2)))
          ≠ hashMacAddr (srcAddr (data (frame mac1 mac2)))) as Hne
    by (vm_compute; discriminate).
  assert (source_consistent (dMacCache (sw (switch 3 ∅))) 0 (frame mac1 mac2))
    as Hsrc by exact I.
  destruct (flood_reaches_every_other_port unit tx_b_ok tx_nb_ok 0
              (frame mac1 mac2) BEGIN_REQ 0 (switch 3 ∅) Hport Hdst Hne Hsrc)
    as [Hb Hnb].
  do 4 (split; [assumption|]).
  split; [apply Hb|apply Hnb]; run.
Defined.

(** ** C2 *)

(** With [mac1] learned on port 0 and [mac2] on port 1, a frame for [mac2]
    arriving on port 2 that names [mac1] as its source stops on the
    assertion before any egress call; and [nb_transport_fw] hands a frame
    for [mac2] that carries the configuration extension back without any
    egress call. *)
Lemma unicast_claim_counterexample :
  (dMacCache (sw (switch 3 (<[ hashMacAddr mac2 := 1 ]> {[ hashMacAddr mac1 := 0 ]})))
     !! hashMacAddr (destAddr (data (frame mac1 mac2))) = Some 1
   ∧ 2 ≠ 1
   ∧ outcome (b_transport tx_b_ok 2 (frame mac1 mac2) 0
                (switch 3 (<[ hashMacAddr mac2 := 1 ]> {[ hashMacAddr mac1 := 0 ]})))
     = AssertionFailed
   ∧ egress_ports
       (events (b_transport tx_b_ok 2 (frame mac1 mac2) 0
                  (switch 3 (<[ hashMacAddr mac2 := 1 ]> {[ hashMacAddr mac1 := 0 ]}))))
     = [])
  ∧ (dMacCache (sw (switch 3 {[ hashMacAddr mac2 := 1 ]}))
       !! hashMacAddr (destAddr (data (config_frame mac3 mac2))) = Some 1
     ∧ 2 ≠ 1
     ∧ egress_ports
         (events (nb_transport_fw tx_nb_ok 2 (config_frame mac3 mac2) BEGIN_REQ 0
                    (switch 3 {[ hashMacAddr mac2 := 1 ]})))
       = []).
Proof.
  split; repeat (split; [first [reflexivity | lia]|]); reflexivity.
Qed.

Lemma learned_destination_is_unicast_witness :
  valid_port (sw (switch 3 {[ hashMacAddr mac1 := 0 ]})) 1
  ∧ dMacCache (sw (switch 3 {[ hashMacAddr mac1 := 0 ]}))
      !! hashMacAddr (destAddr (data (frame mac2 mac1))) = Some 0
  ∧ 1 ≠ 0
  ∧ source_consistent (dMacCache (sw (switch 3 {[ hashMacAddr mac1 := 0 ]}))) 1
      (frame mac2 mac1)
  ∧ egress_ports
      (events (b_transport tx_b_ok 1 (frame mac2 mac1) 0
                 (switch 3 {[ hashMacAddr mac1 := 0 ]}))) = [0]
  ∧ egress_ports
      (events (nb_transport_fw tx_nb_ok 1 (frame mac2 mac1) BEGIN_REQ 0
                 (switch 3 {[ hashMacAddr mac1 := 0 ]}))) = [0].
Proof.
  assert (valid_port (sw (switch 3 {[ hashMacAddr mac1 := 0 ]})) 1) as Hport
    by port_ok.
  assert (dMacCache (sw (switch 3 {[ hashMacAddr mac1 := 0 ]}))
            !! hashMacAddr (destAddr (data (frame mac2 mac1))) = Some 0) as Hdst
    by reflexivity.
  assert (1 ≠ 0) as Hne by lia.
  assert (source_consistent
            (dMacCache (sw (switch 3 {[ hashMacAddr mac1 := 0 ]}))) 1
            (frame mac2 mac1)) as Hsrc by exact I.
  destruct (learned_destination_is_unicast unit tx_b_ok tx_nb_ok 1
              (frame mac2 mac1) BEGIN_REQ 0
              (switch 3 {[ hashMacAddr mac1 := 0 ]}) 0 Hport Hdst Hne Hsrc)
    as [Hb Hnb].
  do 4 (split; [assumption|]).
  split; [apply Hb|apply Hnb]; reflexivity.
Defined.

(** ** C3 *)

(** With [mac1] learned on port 0, a frame that names [mac1] as its source,
    arrives on port 2 and carries the configuration extension is handed
    back by [nb_transport_fw] with TLM_COMPLETED: the binding is not
    checked. *)
Lemma inconsistent_binding_claim_counterexample :
  dMacCache (sw (switch 3 {[ hashMacAddr mac1 := 0 ]}))
    !! hashMacAddr (srcAddr (data (config_frame mac1 mac2))) = Some 0
  ∧ 0 ≠ 2
  ∧ outcome (nb_transport_fw tx_nb_ok 2 (config_frame mac1 mac2) BEGIN_REQ 0
               (switch 3 {[ hashMacAddr mac1 := 0 ]}))
    = Returned (TLM_COMPLETED,
                set_response_status TLM_OK_RESPONSE (config_frame mac1 mac2),
                BEGIN_REQ, 0)
  ∧ outcome (nb_transport_fw tx_nb_ok 2 (config_frame mac1 mac2) BEGIN_REQ 0
               (switch 3 {[ hashMacAddr mac1 := 0 ]}))
    ≠ AssertionFailed.
Proof.
  split; [reflexivity|]. split; [lia|]. split; [reflexivity|].
  vm_compute. discriminate.
Qed.

Lemma inconsistent_binding_aborts_witness :
  valid_port (sw (switch 3 {[ hashMacAddr mac1 := 0 ]})) 2
  ∧ dMacCache (sw (switch 3 {[ hashMacAddr mac1 := 0 ]}))
      !! hashMacAddr (srcAddr (data (frame mac1 mac2))) = Some 0
  ∧ 0 ≠ 2
  ∧ (outcome (b_transport tx_b_ok 2 (frame mac1 mac2) 0
                (switch 3 {[ hashMacAddr mac1 := 0 ]})) = AssertionFailed
     ∧ egress_ports
         (events (b_transport tx_b_ok 2 (frame mac1 mac2) 0
                    (switch 3 {[ hashMacAddr mac1 := 0 ]}))) = []
     ∧ dMacCache
         (sw (final (b_transport tx_b_ok 2 (frame mac1 mac2) 0
                       (switch 3 {[ hashMacAddr mac1 := 0 ]}))))
       = dMacCache (sw (switch 3 {[ hashMacAddr mac1 := 0 ]})))
  ∧ (outcome (nb_transport_fw tx_nb_ok 2 (frame mac1 mac2) BEGIN_REQ 0
                (switch 3 {[ hashMacAddr mac1 := 0 ]})) = AssertionFailed
     ∧ egress_ports
         (events (nb_transport_fw tx_nb_ok 2 (frame mac1 mac2) BEGIN_REQ 0
                    (switch 3 {[ hashMacAddr mac1 := 0 ]}))) = []
     ∧ dMacCache
         (sw (final (nb_transport_fw tx_nb_ok 2 (frame mac1 mac2) BEGIN_REQ 0
                       (switch 3 {[ hashMacAddr mac1 := 0 ]}))))
       = dMacCache (sw (switch 3 {[ hashMacAddr mac1 := 0 ]}))).
Proof.
  assert (valid_port (sw (switch 3 {[ hashMacAddr mac1 := 0 ]})) 2) as Hport
    by port_ok.
  assert (dMacCache (sw (switch 3 {[ hashMacAddr mac1 := 0 ]}))
            !! hashMacAddr (srcAddr (data (frame mac1 mac2))) = Some 0) as Hsrc
    by reflexivity.
  assert (0 ≠ 2) as Hne by lia.
  destruct (inconsistent_binding_aborts unit tx_b_ok tx_nb_ok 2
              (frame mac1 mac2) BEGIN_REQ 0
              (switch 3 {[ hashMacAddr mac1 := 0 ]}) 0 Hport Hsrc Hne)
    as [Hb Hnb].
  do 3 (split; [assumption|]).
  split; [apply Hb|apply Hnb]; reflexivity.
Defined.

(** ** C10 *)

(** With [mac2] learned on port 0, [nb_transport_fw] hands a frame for
    [mac2] that arrives on port 0 and carries the configuration extension
    back without any egress call; and with [mac1] learned on port 1 as
    well, a frame from [mac1] to [mac2] arriving on port 0 stops on the
    assertion before any egress call. *)
Lemma reflection_claim_counterexample :
  (dMacCache (sw (switch 3 {[ hashMacAddr mac2 := 0 ]}))
     !! hashMacAddr (destAddr (data (config_frame mac1 mac2))) = Some 0
   ∧ egress_ports
       (events (nb_transport_fw tx_nb_ok 0 (config_frame mac1 mac2) BEGIN_REQ 0
                  (switch 3 {[ hashMacAddr mac2 := 0 ]})))
     = [])
  ∧ (dMacCache (sw (switch 3 (<[ hashMacAddr mac1 := 1 ]> {[ hashMacAddr mac2 := 0 ]})))
       !! hashMacAddr (destAddr (data (frame mac1 mac2))) = Some 0
     ∧ outcome (b_transport tx_b_ok 0 (frame mac1 mac2) 0
                  (switch 3 (<[ hashMacAddr mac1 := 1 ]> {[ hashMacAddr mac2 := 0 ]})))
       = AssertionFailed
     ∧ egress_ports
         (events (b_transport tx_b_ok 0 (frame mac1 mac2) 0
                    (switch 3 (<[ hashMacAddr mac1 := 1 ]> {[ hashMacAddr mac2 := 0 ]}))))
       = []).
Proof.
  repeat split; reflexivity.
Qed.

Lemma frame_for_ingress_port_is_reflected_witness :
  valid_port (sw (switch 3 {[ hashMacAddr mac2 := 0 ]})) 0
  ∧ dMacCache (sw (switch 3 {[ hashMacAddr mac2 := 0 ]}))
      !! hashMacAddr (destAddr (data (frame mac1 mac2))) = Some 0
  ∧ source_consistent (dMacCache (sw (switch 3 {[ hashMacAddr mac2 := 0 ]}))) 0
      (frame mac1 mac2)
  ∧ egress_ports
      (events (b_transport tx_b_ok 0 (frame mac1 mac2) 0
                 (switch 3 {[ hashMacAddr mac2 := 0 ]}))) = [0]
  ∧ egress_ports
      (events (nb_transport_fw tx_nb_ok 0 (frame mac1 mac2) BEGIN_REQ 0
                 (switch 3 {[ hashMacAddr mac2 := 0 ]}))) = [0].
Proof.
  assert (valid_port (sw (switch 3 {[ hashMacAddr mac2 := 0 ]})) 0) as Hport
    by port_ok.
  assert (dMacCache (sw (switch 3 {[ hashMacAddr mac2 := 0 ]}))
            !! hashMacAddr (destAddr (data (frame mac1 mac2))) = Some 0) as Hdst
    by reflexivity.
  assert (source_consistent
            (dMacCache (sw (switch 3 {[ hashMacAddr mac2 := 0 ]}))) 0
            (frame mac1 mac2)) as Hsrc by exact I.
  destruct (frame_for_ingress_port_is_reflected unit tx_b_ok tx_nb_ok 0
              (frame mac1 mac2) BEGIN_REQ 0
              (switch 3 {[ hashMacAddr mac2 := 0 ]}) Hport (or_introl Hdst) Hsrc)
    as [Hb Hnb].
  do 3 (split; [assumption|]).
  split; [apply Hb|apply Hnb]; reflexivity.
Defined.

(** ** C5 *)

(** The same frame, carrying the configuration extension, on the same
    switch: [b_transport] learns its source and floods it to ports 1 and 2,
    which is the decision of the specification's engine; [nb_transport_fw]
    learns nothing and calls no port. *)
Lemma same_decision_claim_counterexample :
  spec_decide 3 ∅ (srcAddr (data (config_frame mac1 mac2)))
    (destAddr (data (config_frame mac1 mac2))) 0
  = Some ({[ hashMacAddr mac1 := 0 ]}, Flood [1; 2])
  ∧ egress_ports
      (events (b_transport tx_b_ok 0 (config_frame mac1 mac2) 0 (switch 3 ∅)))
    = [1; 2]
  ∧ dMacCache
      (sw (final (b_transport tx_b_ok 0 (config_frame mac1 mac2) 0 (switch 3 ∅))))
    = {[ hashMacAddr mac1 := 0 ]}
  ∧ egress_ports
      (events (nb_transport_fw tx_nb_ok 0 (config_frame mac1 mac2) BEGIN_REQ 0
                 (switch 3 ∅)))
    = []
  ∧ dMacCache
      (sw (final (nb_transport_fw tx_nb_ok 0 (config_frame mac1 mac2) BEGIN_REQ 0
                    (switch 3 ∅))))
    = ∅
  ∧ ¬ carries_out (Flood [1; 2])
        (events (nb_transport_fw tx_nb_ok 0 (config_frame mac1 mac2) BEGIN_REQ 0
                   (switch 3 ∅))).
Proof.
  do 5 (split; [reflexivity|]).
  intros [_ Hall]. specialize (Hall ltac:(constructor)). discriminate Hall.
Qed.

Lemma both_paths_take_the_same_decision_witness :
  valid_port (sw (switch 3 {[ hashMacAddr mac1 := 0 ]})) 1
  ∧ srcAddr (data (frame mac2 mac3)) = srcAddr (data (frame mac2 mac3))
  ∧ destAddr (data (frame mac2 mac3)) = destAddr (data (frame mac2 mac3))
  ∧ dBTransportLock (sw (switch 3 {[ hashMacAddr mac1 := 0 ]})) = false
  ∧ config_extension (frame mac2 mac3) = false
  ∧ match spec_decide 3 {[ hashMacAddr mac1 := 0 ]} mac2 mac3 1 with
    | None => False
    | Some (table', decision) =>
        decision = Flood [0; 2]
        ∧ dMacCache
            (sw (final (b_transport tx_b_ok 1 (frame mac2 mac3) 0
                          (switch 3 {[ hashMacAddr mac1 := 0 ]})))) = table'
        ∧ dMacCache
            (sw (final (nb_transport_fw tx_nb_ok 1 (frame mac2 mac3) BEGIN_REQ 0
                          (switch 3 {[ hashMacAddr mac1 := 0 ]})))) = table'
        ∧ carries_out decision
            (events (b_transport tx_b_ok 1 (frame mac2 mac3) 0
                       (switch 3 {[ hashMacAddr mac1 := 0 ]})))
        ∧ carries_out decision
            (events (nb_transport_fw tx_nb_ok 1 (frame mac2 mac3) BEGIN_REQ 0
                       (switch 3 {[ hashMacAddr mac1 := 0 ]})))
        ∧ egress_ports
            (events (b_transport tx_b_ok 1 (frame mac2 mac3) 0
                       (switch 3 {[ hashMacAddr mac1 := 0 ]})))
          = egress_ports
              (events (nb_transport_fw tx_nb_ok 1 (frame mac2 mac3) BEGIN_REQ 0
                         (switch 3 {[ hashMacAddr mac1 := 0 ]})))
    end.
Proof.
  assert (valid_port (sw (switch 3 {[ hashMacAddr mac1 := 0 ]})) 1) as Hport
    by port_ok.
  pose proof (both_paths_take_the_same_decision unit tx_b_ok tx_nb_ok 1
                (frame mac2 mac3) (frame mac2 mac3) BEGIN_REQ 0 0
                (switch 3 {[ hashMacAddr mac1 := 0 ]})
                Hport eq_refl eq_refl eq_refl eq_refl) as H.
  do 5 (split; [first [assumption | reflexivity]|]).
  revert H.
  change (dNumPorts (sw (switch 3 {[ hashMacAddr mac1 := 0 ]}))) with 3.
  change (dMacCache (sw (switch 3 {[ hashMacAddr mac1 := 0 ]})))
    with ({[ hashMacAddr mac1 := 0 ]} : gmap Z Z).
  change (srcAddr (data (frame mac2 mac3))) with mac2.
  change (destAddr (data (frame mac2 mac3))) with mac3.
  destruct (spec_decide 3 {[ hashMacAddr mac1 := 0 ]} mac2 mac3 1)
    as [[table' decision]|] eqn:Hdecide; [|discriminate Hdecide].
  intros (_ & _ & Htb & Htnb & Hb & Hnb & Hsame).
  split; [vm_compute in Hdecide; by injection Hdecide as _ <-|].
  do 4 (split; [assumption|]).
  apply Hsame; run.
Defined.

(** ** C4 *)

Lemma learning_precedes_lookup_witness :
  valid_port (sw (switch 3 ∅)) 0
  ∧ dMacCache (sw (switch 3 ∅)) !! hashMacAddr (srcAddr (data (frame mac1 mac1)))
    = None
  ∧ (dMacCache (sw (final (b_transport tx_b_ok 0 (frame mac1 mac1) 0 (switch 3 ∅))))
       = <[ hashMacAddr mac1 := 0 ]> ∅
     ∧ egress_ports
         (events (b_transport tx_b_ok 0 (frame mac1 mac1) 0 (switch 3 ∅))) = [0])
  ∧ (dMacCache
       (sw (final (nb_transport_fw tx_nb_ok 0 (frame mac1 mac1) BEGIN_REQ 0
                     (switch 3 ∅))))
       = <[ hashMacAddr mac1 := 0 ]> ∅
     ∧ egress_ports
         (events (nb_transport_fw tx_nb_ok 0 (frame mac1 mac1) BEGIN_REQ 0
                    (switch 3 ∅))) = [0]).
Proof.
  assert (valid_port (sw (switch 3 ∅)) 0) as Hport by port_ok.
  assert (dMacCache (sw (switch 3 ∅))
            !! hashMacAddr (srcAddr (data (frame mac1 mac1))) = None) as Hsrc
    by reflexivity.
  destruct (learning_precedes_lookup unit tx_b_ok tx_nb_ok 0 (frame mac1 mac1)
              BEGIN_REQ 0 (switch 3 ∅) Hport Hsrc) as [Hb Hnb].
  do 2 (split; [assumption|]).
  split.
  - destruct (Hb eq_refl) as (Htable & _ & Hself). split; [exact Htable|].
    apply Hself. reflexivity.
  - destruct (Hnb eq_refl) as (Htable & _ & Hself). split; [exact Htable|].
    apply Hself. reflexivity.
Defined.

(** ** C6 *)

(** 4-port switch, frame on port 0, the socket on port 2 reports an error:
    ports 1 and 2 are called, port 3 is not. *)
Lemma blocking_flood_stops_at_failure_witness :
  valid_port (sw (switch 4 ∅)) 0
  ∧ dBTransportLock (sw (switch 4 ∅)) = false
  ∧ source_consistent (dMacCache (sw (switch 4 ∅))) 0 (frame mac1 mac2)
  ∧ dMacCache (sw (switch 4 ∅)) !! hashMacAddr (destAddr (data (frame mac1 mac2)))
    = None
  ∧ hashMacAddr (destAddr (data (frame mac1 mac2)))
    ≠ hashMacAddr (srcAddr (data (frame mac1 mac2)))
  ∧ b_calls (events (b_transport (tx_b_failing 2) 0 (frame mac1 mac2) 0 (switch 4 ∅)))
    = [(1, TLM_OK_RESPONSE)] ++ (2, TLM_GENERIC_ERROR_RESPONSE) :: []
  ∧ TLM_GENERIC_ERROR_RESPONSE ≠ TLM_OK_RESPONSE
  ∧ (3 ∉ egress_ports
           (events (b_transport (tx_b_failing 2) 0 (frame mac1 mac2) 0 (switch 4 ∅))))
  ∧ (∃ t' d',
       outcome (b_transport (tx_b_failing 2) 0 (frame mac1 mac2) 0 (switch 4 ∅))
       = Returned (t', d')
       ∧ response_status t' = TLM_GENERIC_ERROR_RESPONSE)
  ∧ dBTransportLock
      (sw (final (b_transport (tx_b_failing 2) 0 (frame mac1 mac2) 0 (switch 4 ∅))))
    = false
  ∧ outcome
      (b_transport (tx_b_failing 2) 1 (frame mac2 mac1) 0
         (final (b_transport (tx_b_failing 2) 0 (frame mac1 mac2) 0 (switch 4 ∅))))
    ≠ Suspended.
Proof.
  assert (valid_port (sw (switch 4 ∅)) 0) as Hport by port_ok.
  assert (dBTransportLock (sw (switch 4 ∅)) = false) as Hlock by reflexivity.
  assert (source_consistent (dMacCache (sw (switch 4 ∅))) 0 (frame mac1 mac2))
    as Hsrc by exact I.
  assert (dMacCache (sw (switch 4 ∅))
            !! hashMacAddr (destAddr (data (frame mac1 mac2))) = None) as Hdst
    by reflexivity.
  assert (hashMacAddr (destAddr (data (frame mac1 mac2)))
          ≠ hashMacAddr (srcAddr (data (frame mac1 mac2)))) as Hne
    by (vm_compute; discriminate).
  assert (b_calls (events (b_transport (tx_b_failing 2) 0 (frame mac1 mac2) 0
                             (switch 4 ∅)))
          = [(1, TLM_OK_RESPONSE)] ++ (2, TLM_GENERIC_ERROR_RESPONSE) :: [])
    as Hcalls by reflexivity.
  assert (TLM_GENERIC_ERROR_RESPONSE ≠ TLM_OK_RESPONSE) as Hst by discriminate.
  destruct (blocking_flood_stops_at_failure unit (tx_b_failing 2) 0
              (frame mac1 mac2) 0 (switch 4 ∅)
              [(1, TLM_OK_RESPONSE)] 2 TLM_GENERIC_ERROR_RESPONSE []
              Hport Hlock Hsrc Hdst Hne Hcalls Hst)
    as (_ & Hhigher & Hstatus & Hunlocked & Hnext).
  do 7 (split; [assumption|]).
  split; [apply Hhigher; lia|].
  split; [exact Hstatus|]. split; [exact Hunlocked|]. apply Hnext.
Defined.

(** ** C7 *)

(** 4-port switch, frame on port 0, the socket on port 2 queues the frame
    and returns TLM_ACCEPTED: ports 1 and 2 are called and the function
    returns TLM_ACCEPTED. *)
Lemma nonblocking_flood_protocol_witness :
  valid_port (sw (switch 4 ∅)) 0
  ∧ config_extension (frame mac1 mac2) = false
  ∧ source_consistent (dMacCache (sw (switch 4 ∅))) 0 (frame mac1 mac2)
  ∧ dMacCache (sw (switch 4 ∅)) !! hashMacAddr (destAddr (data (frame mac1 mac2)))
    = None
  ∧ hashMacAddr (destAddr (data (frame mac1 mac2)))
    ≠ hashMacAddr (srcAddr (data (frame mac1 mac2)))
  ∧ nb_calls
      (events (nb_transport_fw (tx_nb_queueing 2) 0 (frame mac1 mac2) END_RESP 0
                 (switch 4 ∅)))
    = [(1, BEGIN_REQ, TLM_COMPLETED, TLM_OK_RESPONSE);
       (2, BEGIN_REQ, TLM_ACCEPTED, TLM_OK_RESPONSE)]
  ∧ Forall (λ c, nb_call_phase c = BEGIN_REQ)
      (nb_calls
         (events (nb_transport_fw (tx_nb_queueing 2) 0 (frame mac1 mac2) END_RESP 0
                    (switch 4 ∅))))
  ∧ StronglySorted Z.lt
      (nb_call_port <$>
         nb_calls
           (events (nb_transport_fw (tx_nb_queueing 2) 0 (frame mac1 mac2) END_RESP 0
                      (switch 4 ∅))))
  ∧ ∃ ret t' ph' d',
      outcome (nb_transport_fw (tx_nb_queueing 2) 0 (frame mac1 mac2) END_RESP 0
                 (switch 4 ∅))
      = Returned (ret, t', ph', d')
      ∧ ret = TLM_ACCEPTED.
Proof.
  assert (valid_port (sw (switch 4 ∅)) 0) as Hport by port_ok.
  assert (config_extension (frame mac1 mac2) = false) as Hcfg by reflexivity.
  assert (source_consistent (dMacCache (sw (switch 4 ∅))) 0 (frame mac1 mac2))
    as Hsrc by exact I.
  assert (dMacCache (sw (switch 4 ∅))
            !! hashMacAddr (destAddr (data (frame mac1 mac2))) = None) as Hdst
    by reflexivity.
  assert (hashMacAddr (destAddr (data (frame mac1 mac2)))
          ≠ hashMacAddr (srcAddr (data (frame mac1 mac2)))) as Hne
    by (vm_compute; discriminate).
  destruct (nonblocking_flood_protocol unit (tx_nb_queueing 2) 0
              (frame mac1 mac2) END_RESP 0 (switch 4 ∅)
              Hport Hcfg Hsrc Hdst Hne)
    as (_ & _ & Hsorted & Hphase & _ & _ & ret & t' & ph' & d' & Hout & Hret & _).
  do 5 (split; [assumption|]).
  split; [reflexivity|]. split; [exact Hphase|]. split; [exact Hsorted|].
  exists ret, t', ph', d'. split; [exact Hout|]. rewrite Hret. reflexivity.
Defined.

(** ** C8 *)


(** ** C9 *)

Lemma learning_table_only_grows_witness :
  dMacCache (sw (switch 3 {[ hashMacAddr mac1 := 0 ]})) !! hashMacAddr mac1
    = Some 0
  ∧ (dMacCache
       (sw (final (b_transport tx_b_ok 1 (frame mac2 mac1) 0
                     (switch 3 {[ hashMacAddr mac1 := 0 ]}))))
       !! hashMacAddr mac1 = Some 0
     ∧ dMacCache
         (sw (final (nb_transport_fw tx_nb_ok 1 (frame mac2 mac1) BEGIN_REQ 0
                       (switch 3 {[ hashMacAddr mac1 := 0 ]}))))
         !! hashMacAddr mac1 = Some 0)
  ∧ dMacCache (sw (switch 3 {[ hashMacAddr mac1 := 0 ]}))
      !! hashMacAddr (srcAddr (data (frame mac1 mac2))) = Some (to_uint32 0)
  ∧ (dMacCache
       (sw (final (b_transport tx_b_ok 0 (frame mac1 mac2) 0
                     (switch 3 {[ hashMacAddr mac1 := 0 ]}))))
       = dMacCache (sw (switch 3 {[ hashMacAddr mac1 := 0 ]}))
     ∧ outcome (b_transport tx_b_ok 0 (frame mac1 mac2) 0
                  (switch 3 {[ hashMacAddr mac1 := 0 ]})) ≠ AssertionFailed
     ∧ dMacCache
         (sw (final (nb_transport_fw tx_nb_ok 0 (frame mac1 mac2) BEGIN_REQ 0
                       (switch 3 {[ hashMacAddr mac1 := 0 ]}))))
       = dMacCache (sw (switch 3 {[ hashMacAddr mac1 := 0 ]}))
     ∧ outcome (nb_transport_fw tx_nb_ok 0 (frame mac1 mac2) BEGIN_REQ 0
                  (switch 3 {[ hashMacAddr mac1 := 0 ]})) ≠ AssertionFailed).
Proof.
  assert (dMacCache (sw (switch 3 {[ hashMacAddr mac1 := 0 ]}))
            !! hashMacAddr mac1 = Some 0) as Hbound by reflexivity.
  assert (dMacCache (sw (switch 3 {[ hashMacAddr mac1 := 0 ]}))
            !! hashMacAddr (srcAddr (data (frame mac1 mac2)))
          = Some (to_uint32 0)) as Hsame by reflexivity.
  destruct (learning_table_only_grows unit tx_b_ok tx_nb_ok 1 (frame mac2 mac1)
              BEGIN_REQ 0 (switch 3 {[ hashMacAddr mac1 := 0 ]})) as [Hkeep _].
  destruct (learning_table_only_grows unit tx_b_ok tx_nb_ok 0 (frame mac1 mac2)
              BEGIN_REQ 0 (switch 3 {[ hashMacAddr mac1 := 0 ]})) as [_ Hidem].
  split; [assumption|]. split; [exact (Hkeep _ _ Hbound)|].
  split; [assumption|]. exact (Hidem Hsame).
Defined.

(** * More on the switch

    Properties of [hashMacAddr], the constructor and the two transport
    functions beyond the ones above. *)

(** ** The fingerprint *)

Lemma byte_at_range macAddr i : 0 ≤ byte_at macAddr i < 256.
Proof.
  unfold byte_at. pose proof (Byte.to_N_bounded (nth i macAddr Byte.x00)). lia.
Qed.

Lemma lor_mul_pow2_add a c k :
  0 ≤ k → 0 ≤ a < 2 ^ k → Z.lor a (c * 2 ^ k) = a + c * 2 ^ k.
Proof.
  intros Hk Ha. rewrite <- (Z.add_lor_land a (c * 2 ^ k)).
  assert (Z.land a (c * 2 ^ k) = 0) as ->; [|lia].
  apply Z.bits_inj'. intros n Hn.
  rewrite Z.land_spec, Z.bits_0.
  destruct (Z_lt_le_dec n k) as [Hlt|Hge].
  - rewrite <- Z.shiftl_mul_pow2 by done.
    rewrite (Z.shiftl_spec_low c k n Hlt). apply andb_false_r.
  - rewrite <- (Z.mod_small a (2 ^ k)) by done.
    rewrite Z.mod_pow2_bits_high by lia. reflexivity.
Qed.

Lemma load_uint32_sum macAddr :
  load_uint32 macAddr
  = byte_at macAddr 0 + byte_at macAddr 1 * 2 ^ 8
    + byte_at macAddr 2 * 2 ^ 16 + byte_at macAddr 3 * 2 ^ 24.
Proof.
  unfold load_uint32.
  pose proof (byte_at_range macAddr 0). pose proof (byte_at_range macAddr 1).
  pose proof (byte_at_range macAddr 2). pose proof (byte_at_range macAddr 3).
  rewrite !Z.shiftl_mul_pow2 by lia.
  rewrite (lor_mul_pow2_add (byte_at macAddr 2 * 2 ^ 16)) by lia.
  replace (byte_at macAddr 2 * 2 ^ 16 + byte_at macAddr 3 * 2 ^ 24)
    with ((byte_at macAddr 2 + byte_at macAddr 3 * 2 ^ 8) * 2 ^ 16) by lia.
  rewrite (lor_mul_pow2_add (byte_at macAddr 1 * 2 ^ 8)) by lia.
  replace (byte_at macAddr 1 * 2 ^ 8
           + (byte_at macAddr 2 + byte_at macAddr 3 * 2 ^ 8) * 2 ^ 16)
    with ((byte_at macAddr 1 + byte_at macAddr 2 * 2 ^ 8
           + byte_at macAddr 3 * 2 ^ 16) * 2 ^ 8) by lia.
  rewrite (lor_mul_pow2_add (byte_at macAddr 0)) by lia.
  lia.
Qed.

(** X1.  The fingerprint of an address is the sum of its first four bytes,
    weighted as a little-endian 32-bit word, and its last two bytes, reduced
    modulo 2^32; it is a 32-bit value. *)
Theorem hashMacAddr_sum macAddr :
  hashMacAddr macAddr
  = (byte_at macAddr 0 + byte_at macAddr 1 * 2 ^ 8
     + byte_at macAddr 2 * 2 ^ 16 + byte_at macAddr 3 * 2 ^ 24
     + byte_at macAddr 4 + byte_at macAddr 5) mod 2 ^ 32
  ∧ 0 ≤ hashMacAddr macAddr < 2 ^ 32.
Proof.
  unfold hashMacAddr, to_uint32. rewrite load_uint32_sum.
  split; [|apply Z.mod_pos_bound; lia].
  by rewrite Zplus_mod_idemp_l.
Qed.

(** X2.  The fingerprint does not tell addresses apart that differ only in
    the order of their last two bytes, or more generally in how the sum of
    the last two bytes is split between them. *)
Theorem hashMacAddr_last_two_bytes b0 b1 b2 b3 b4 b5 b4' b5' :
  Z.of_N (Byte.to_N b4) + Z.of_N (Byte.to_N b5)
    = Z.of_N (Byte.to_N b4') + Z.of_N (Byte.to_N b5') →
  hashMacAddr [b0; b1; b2; b3; b4; b5] = hashMacAddr [b0; b1; b2; b3; b4'; b5'].
Proof.
  intros Hsum.
  destruct (hashMacAddr_sum [b0; b1; b2; b3; b4; b5]) as [-> _].
  destruct (hashMacAddr_sum [b0; b1; b2; b3; b4'; b5']) as [-> _].
  unfold byte_at. simpl nth. f_equal. lia.
Qed.

Lemma hashMacAddr_last_two_bytes_witness :
  Z.of_N (Byte.to_N Byte.x01) + Z.of_N (Byte.to_N Byte.x02)
    = Z.of_N (Byte.to_N Byte.x02) + Z.of_N (Byte.to_N Byte.x01)
  ∧ hashMacAddr [Byte.xaa; Byte.xbb; Byte.xcc; Byte.x00; Byte.x01; Byte.x02]
    = hashMacAddr [Byte.xaa; Byte.xbb; Byte.xcc; Byte.x00; Byte.x02; Byte.x01].
Proof.
  split; [reflexivity|].
  apply hashMacAddr_last_two_bytes. reflexivity.
Defined.

(** ** The transport functions, for any TX sockets *)

Section MoreOnTheSwitch.

Context {World : Type}.
Context (tx_b : Z → World → tlm_generic_payload → sc_time →
                World * tlm_generic_payload * sc_time).
Context (tx_nb : Z → World → tlm_generic_payload → tlm_phase → sc_time →
                 World * tlm_generic_payload * tlm_phase * sc_time * tlm_sync_enum).

(** The switch object at the end of a call. *)
Lemma b_transport_final rxPortId trans delay (s : Sim World) :
  let r := b_transport tx_b rxPortId trans delay s in
  (dBTransportLock (sw s) = true ∧ r = mkRun _ _ Suspended s [])
  ∨ (dBTransportLock (sw s) = false
     ∧ ¬ source_consistent (dMacCache (sw s)) rxPortId trans
     ∧ outcome r = AssertionFailed
     ∧ sw (final r) = with_dBTransportLock true (sw s)
     ∧ world (final r) = world s
     ∧ egress_ports (events r) = [])
  ∨ (dBTransportLock (sw s) = false
     ∧ source_consistent (dMacCache (sw s)) rxPortId trans
     ∧ (∃ out, outcome r = Returned out)
     ∧ sw (final r)
       = mkSwitch (dNumPorts (sw s)) (isMonitoringEnabled (sw s))
           (learnt (dMacCache (sw s)) rxPortId trans) false
     ∧ last (events r) = Some WaitZero).
Proof.
  intros r. subst r.
  destruct (dBTransportLock (sw s)) eqn:Hlock.
  { left. split; [done|]. by apply b_transport_suspended. }
  right.
  destruct (source_consistent_dec (dMacCache (sw s)) rxPortId trans)
    as [Hsrc|(second & Hsrc & Hne)].
  - right. do 2 (split; [done|]).
    destruct (learnt (dMacCache (sw s)) rxPortId trans
                !! hashMacAddr (destAddr (data trans))) as [portId|] eqn:Hdst.
    + destruct (tx_b portId (world s) trans delay) as [[w t'] d'] eqn:Htx.
      rewrite (b_transport_unicast _ _ _ _ _ _ _ _ _ _ Hlock Hsrc Hdst Htx).
      simpl. split; [eauto|]. split; [done|].
      rewrite !app_assoc.
      change [TxBTransport portId (response_status t'); WaitZero]
        with ([TxBTransport portId (response_status t')] ++ [WaitZero]).
      rewrite app_assoc. apply last_snoc.
    + rewrite (b_transport_flood _ _ _ _ _ _ _ Hlock Hsrc Hdst eq_refl). simpl.
      split; [apply b_flood_returns|]. split; [done|].
      rewrite !app_assoc. apply last_snoc.
  - left. split; [done|].
    rewrite (b_transport_abort _ _ _ _ _ _ _ Hlock Hsrc Hne). simpl.
    split; [|split; [done|split; [done|split; [done|]]]].
    + unfold source_consistent. by rewrite Hsrc.
    + rewrite <- (app_nil_r (rx_monitor _ _ _)). apply egress_ports_rx_monitor.
Qed.

Lemma nb_transport_fw_final rxPortId trans phase delay (s : Sim World) :
  let r := nb_transport_fw tx_nb rxPortId trans phase delay s in
  (config_extension trans = true
   ∧ r = mkRun _ _ (Returned (TLM_COMPLETED,
                                set_response_status TLM_OK_RESPONSE trans,
                                phase, delay)) s [])
  ∨ (config_extension trans = false
     ∧ ¬ source_consistent (dMacCache (sw s)) rxPortId trans
     ∧ outcome r = AssertionFailed
     ∧ final r = s
     ∧ egress_ports (events r) = [])
  ∨ (config_extension trans = false
     ∧ source_consistent (dMacCache (sw s)) rxPortId trans
     ∧ (∃ out, outcome r = Returned out)
     ∧ sw (final r)
       = with_dMacCache (learnt (dMacCache (sw s)) rxPortId trans) (sw s)).
Proof.
  intros r. subst r.
  destruct (config_extension trans) eqn:Hcfg.
  { left. split; [done|]. by apply nb_transport_fw_config. }
  right.
  destruct (source_consistent_dec (dMacCache (sw s)) rxPortId trans)
    as [Hsrc|(second & Hsrc & Hne)].
  - right. do 2 (split; [done|]).
    destruct (learnt (dMacCache (sw s)) rxPortId trans
                !! hashMacAddr (destAddr (data trans))) as [portId|] eqn:Hdst.
    + destruct (tx_nb portId (world s)
                  (set_response_status TLM_OK_RESPONSE trans) BEGIN_REQ delay)
        as [[[[w t'] ph'] d'] ret] eqn:Htx.
      rewrite (nb_transport_fw_unicast _ _ _ _ _ _ _ _ _ _ _ _ _
                 Hcfg Hsrc Hdst Htx).
      simpl. eauto.
    + rewrite (nb_transport_fw_flood _ _ _ _ _ _ _ Hcfg Hsrc Hdst). simpl.
      rewrite nb_flood_sw. simpl. split; [|done].
      destruct (nb_flood_result World tx_nb (Z.to_nat (dNumPorts (sw s)))
                  rxPortId TLM_COMPLETED 0
                  (set_response_status TLM_OK_RESPONSE trans) phase delay
                  (mkSim (with_dMacCache
                            (learnt (dMacCache (sw s)) rxPortId trans) (sw s))
                     (world s)))
        as (ret' & t' & ph' & d' & Hout & _). eauto.
  - left. split; [done|].
    rewrite (nb_transport_fw_abort _ _ _ _ _ _ _ _ Hcfg Hsrc Hne). simpl.
    split; [|split; [done|split; [done|]]].
    + unfold source_consistent. by rewrite Hsrc.
    + rewrite <- (app_nil_r (rx_monitor _ _ _)). apply egress_ports_rx_monitor.
Qed.

(** *** What a call leaves in the learning table *)

Lemma learnt_lookup_source m rxPortId trans :
  source_consistent m rxPortId trans →
  learnt m rxPortId trans !! hashMacAddr (srcAddr (data trans))
  = Some (to_uint32 rxPortId).
Proof.
  unfold source_consistent, learnt.
  destruct (m !! hashMacAddr (srcAddr (data trans))) as [second|] eqn:Hsrc.
  - intros ->. done.
  - intros _. apply lookup_insert_eq.
Qed.

(** X3.  When a call returns, on either path (for [nb_transport_fw]: a
    frame without the configuration extension), the learning table binds
    the fingerprint of the frame's source address to the ingress port. *)
Theorem source_is_bound_after_call rxPortId trans phase delay (s : Sim World) :
  valid_port (sw s) rxPortId →
  (∀ out, outcome (b_transport tx_b rxPortId trans delay s) = Returned out →
     dMacCache (sw (final (b_transport tx_b rxPortId trans delay s)))
       !! hashMacAddr (srcAddr (data trans)) = Some rxPortId)
  ∧ (config_extension trans = false →
     ∀ out, outcome (nb_transport_fw tx_nb rxPortId trans phase delay s)
            = Returned out →
     dMacCache (sw (final (nb_transport_fw tx_nb rxPortId trans phase delay s)))
       !! hashMacAddr (srcAddr (data trans)) = Some rxPortId).
Proof.
  intros Hport. split.
  - intros out Hout.
    pose proof (b_transport_final rxPortId trans delay s) as Hb. simpl in Hb.
    destruct Hb as [[_ Hr]|[(_ & _ & Hr & _)|(_ & Hsrc & _ & -> & _)]].
    + rewrite Hr in Hout. discriminate Hout.
    + rewrite Hr in Hout. discriminate Hout.
    + simpl. rewrite (learnt_lookup_source _ _ _ Hsrc).
      by rewrite (to_uint32_port _ _ Hport).
  - intros Hcfg out Hout.
    pose proof (nb_transport_fw_final rxPortId trans phase delay s) as Hnb.
    simpl in Hnb.
    destruct Hnb as [[? _]|[(_ & _ & Hr & _)|(_ & Hsrc & _ & ->)]].
    + congruence.
    + rewrite Hr in Hout. discriminate Hout.
    + simpl. rewrite (learnt_lookup_source _ _ _ Hsrc).
      by rewrite (to_uint32_port _ _ Hport).
Qed.

(** Every port in the learning table is an index into the port vectors. *)
Definition ports_in_range (sw : XlTlmEthSoftSw) : Prop :=
  ∀ k p, dMacCache sw !! k = Some p → 0 ≤ p < dNumPorts sw.

Lemma learnt_in_range sw rxPortId trans k p :
  valid_port sw rxPortId →
  ports_in_range sw →
  learnt (dMacCache sw) rxPortId trans !! k = Some p →
  0 ≤ p < dNumPorts sw.
Proof.
  intros Hport Hrange. unfold learnt.
  destruct (dMacCache sw !! hashMacAddr (srcAddr (data trans))).
  - apply Hrange.
  - rewrite lookup_insert. case_decide.
    + intros [= <-]. rewrite (to_uint32_port _ _ Hport). by destruct Hport.
    + apply Hrange.
Qed.

(** X4.  If every port in the learning table is below [dNumPorts], it is so
    again after a call of either transport function: the index used for
    [txPorts] in the unicast branch is never out of range. *)
Theorem table_ports_stay_in_range rxPortId trans phase delay (s : Sim World) :
  valid_port (sw s) rxPortId →
  ports_in_range (sw s) →
  ports_in_range (sw (final (b_transport tx_b rxPortId trans delay s)))
  ∧ ports_in_range
      (sw (final (nb_transport_fw tx_nb rxPortId trans phase delay s))).
Proof.
  intros Hport Hrange. split.
  - pose proof (b_transport_final rxPortId trans delay s) as Hb. simpl in Hb.
    destruct Hb as [[_ ->]|[(_ & _ & _ & -> & _)|(_ & _ & _ & -> & _)]];
      simpl; try done.
    intros k p. simpl. by apply learnt_in_range.
  - pose proof (nb_transport_fw_final rxPortId trans phase delay s) as Hnb.
    simpl in Hnb.
    destruct Hnb as [[_ ->]|[(_ & _ & _ & -> & _)|(_ & _ & _ & ->)]];
      simpl; try done.
    intros k p. simpl. by apply learnt_in_range.
Qed.

(** X5.  Under the same condition the TX ports called by one call of either
    transport function are all below [dNumPorts] and are called in strictly
    ascending order, so none is called twice, whatever the TX sockets
    answer. *)
Theorem egress_ports_ascending_in_range
    rxPortId trans phase delay (s : Sim World) :
  valid_port (sw s) rxPortId →
  ports_in_range (sw s) →
  (StronglySorted Z.lt (egress_ports (events (b_transport tx_b rxPortId trans delay s)))
   ∧ Forall (λ p, 0 ≤ p < dNumPorts (sw s))
       (egress_ports (events (b_transport tx_b rxPortId trans delay s))))
  ∧ (StronglySorted Z.lt
       (egress_ports (events (nb_transport_fw tx_nb rxPortId trans phase delay s)))
     ∧ Forall (λ p, 0 ≤ p < dNumPorts (sw s))
         (egress_ports
            (events (nb_transport_fw tx_nb rxPortId trans phase delay s)))).
Proof.
  intros Hport Hrange.
  assert (∀ ports,
            ports `prefix_of`
              filter (λ p, p ≠ rxPortId) (seqZ 0 (dNumPorts (sw s))) →
            StronglySorted Z.lt ports
            ∧ Forall (λ p, 0 ≤ p < dNumPorts (sw s)) ports) as Hflood.
  { intros ports Hpre. split.
    - apply (prefix_sorted _ _ Hpre), flood_targets_sorted.
    - apply list.Forall_forall. intros p Hp.
      apply (elem_of_prefix _ _ _ Hp) in Hpre.
      apply elem_of_flood_targets in Hpre. tauto. }
  assert (∀ p, learnt (dMacCache (sw s)) rxPortId trans
                 !! hashMacAddr (destAddr (data trans)) = Some p →
               StronglySorted Z.lt [p]
               ∧ Forall (λ p, 0 ≤ p < dNumPorts (sw s)) [p]) as Hunicast.
  { intros p Hp. split; [repeat constructor|].
    apply Forall_singleton. by eapply learnt_in_range. }
  assert (StronglySorted Z.lt []
          ∧ Forall (λ p, 0 ≤ p < dNumPorts (sw s)) []) as Hnone
    by (split; constructor).
  split.
  - pose proof (b_transport_final rxPortId trans delay s) as Hb. simpl in Hb.
    destruct Hb as [[_ ->]|[(_ & _ & _ & _ & _ & ->)|(Hlock & Hsrc & _)]];
      [done..|].
    destruct (learnt (dMacCache (sw s)) rxPortId trans
                !! hashMacAddr (destAddr (data trans))) as [p|] eqn:Hdst.
    + rewrite (b_unicast_ports _ _ _ _ _ _ _ Hlock Hsrc Hdst). auto.
    + apply Hflood. by apply b_flood_all_ports.
  - pose proof (nb_transport_fw_final rxPortId trans phase delay s) as Hnb.
    simpl in Hnb.
    destruct Hnb as [[_ ->]|[(_ & _ & _ & _ & ->)|(Hcfg & Hsrc & _)]];
      [done..|].
    destruct (learnt (dMacCache (sw s)) rxPortId trans
                !! hashMacAddr (destAddr (data trans))) as [p|] eqn:Hdst.
    + rewrite (nb_unicast_ports _ _ _ _ _ _ _ _ Hcfg Hsrc Hdst). auto.
    + apply Hflood. by apply nb_flood_all_ports.
Qed.

(** *** One call after another *)

(** [s1] is the state a call on port [rxPortId] with frame [trans] returned
    in, on one path or the other. *)
Definition returned_in (s : Sim World) (rxPortId : Z)
    (trans : tlm_generic_payload) (s1 : Sim World) : Prop :=
  (∃ delay out,
     outcome (b_transport tx_b rxPortId trans delay s) = Returned out
     ∧ s1 = final (b_transport tx_b rxPortId trans delay s))
  ∨ (config_extension trans = false
     ∧ ∃ phase delay out,
         outcome (nb_transport_fw tx_nb rxPortId trans phase delay s)
           = Returned out
         ∧ s1 = final (nb_transport_fw tx_nb rxPortId trans phase delay s)).

Lemma returned_in_state s rxPortId trans s1 :
  valid_port (sw s) rxPortId →
  returned_in s rxPortId trans s1 →
  dNumPorts (sw s1) = dNumPorts (sw s)
  ∧ dMacCache (sw s1) = learnt (dMacCache (sw s)) rxPortId trans
  ∧ dMacCache (sw s1) !! hashMacAddr (srcAddr (data trans)) = Some rxPortId.
Proof.
  intros Hport [(delay & out & Hout & ->)|(Hcfg & phase & delay & out & Hout & ->)].
  - pose proof (b_transport_final rxPortId trans delay s) as Hb. simpl in Hb.
    destruct Hb as [[_ Hr]|[(_ & _ & Hr & _)|(_ & Hsrc & _ & -> & _)]].
    + rewrite Hr in Hout. discriminate Hout.
    + rewrite Hr in Hout. discriminate Hout.
    + simpl. do 2 (split; [done|]).
      rewrite (learnt_lookup_source _ _ _ Hsrc).
      by rewrite (to_uint32_port _ _ Hport).
  - pose proof (nb_transport_fw_final rxPortId trans phase delay s) as Hnb.
    simpl in Hnb.
    destruct Hnb as [[? _]|[(_ & _ & Hr & _)|(_ & Hsrc & _ & ->)]].
    + congruence.
    + rewrite Hr in Hout. discriminate Hout.
    + simpl. do 2 (split; [done|]).
      rewrite (learnt_lookup_source _ _ _ Hsrc).
      by rewrite (to_uint32_port _ _ Hport).
Qed.

(** X6.  Let a call for a frame on port [rx1] have returned: a call of
    [b_transport], or a call of [nb_transport_fw] for a frame without
    configuration extension.  A frame that then arrives on another port
    (both ports within range) and whose source address has the same
    fingerprint (the same address, or one that collides with it) fails the
    assertion and is forwarded nowhere: in [b_transport] when the mutex is
    free, in [nb_transport_fw] when the frame carries no configuration
    extension. *)
Theorem same_fingerprint_on_another_port_fails
    (s s1 : Sim World) rx1 t1 rx2 t2 phase delay :
  valid_port (sw s) rx1 →
  valid_port (sw s) rx2 →
  rx2 ≠ rx1 →
  hashMacAddr (srcAddr (data t2)) = hashMacAddr (srcAddr (data t1)) →
  returned_in s rx1 t1 s1 →
  (dBTransportLock (sw s1) = false →
   outcome (b_transport tx_b rx2 t2 delay s1) = AssertionFailed
   ∧ egress_ports (events (b_transport tx_b rx2 t2 delay s1)) = [])
  ∧ (config_extension t2 = false →
     outcome (nb_transport_fw tx_nb rx2 t2 phase delay s1) = AssertionFailed
     ∧ egress_ports (events (nb_transport_fw tx_nb rx2 t2 phase delay s1)) = []).
Proof.
  intros Hport1 Hport2 Hne Hfp Hs1.
  destruct (returned_in_state _ _ _ _ Hport1 Hs1) as (HN & _ & Hbound).
  rewrite <- Hfp in Hbound.
  assert (to_uint32 rx2 ≠ rx1) as Hne'
    by (by rewrite (to_uint32_port _ _ Hport2)).
  split.
  - intros Hlock.
    rewrite (b_transport_abort _ _ _ _ _ _ _ Hlock Hbound Hne'). simpl.
    split; [done|].
    rewrite <- (app_nil_r (rx_monitor _ _ _)). apply egress_ports_rx_monitor.
  - intros Hcfg.
    rewrite (nb_transport_fw_abort _ _ _ _ _ _ _ _ Hcfg Hbound Hne'). simpl.
    split; [done|].
    rewrite <- (app_nil_r (rx_monitor _ _ _)). apply egress_ports_rx_monitor.
Qed.

(** X7.  Let a call for a frame from an address on port [rx1] (within
    range) have returned: a call of [b_transport], or a call of
    [nb_transport_fw] for a frame without configuration extension.  A
    later frame for that address (or for one with the same fingerprint),
    from a source that is unbound or bound to its own ingress port, is sent
    to port [rx1] and to no other port: by [b_transport] when the mutex is
    free, by [nb_transport_fw] when the frame carries no configuration
    extension. *)
Theorem reply_goes_to_the_learned_port
    (s s1 : Sim World) rx1 t1 rx2 t2 phase delay :
  valid_port (sw s) rx1 →
  hashMacAddr (destAddr (data t2)) = hashMacAddr (srcAddr (data t1)) →
  returned_in s rx1 t1 s1 →
  source_consistent (dMacCache (sw s1)) rx2 t2 →
  (dBTransportLock (sw s1) = false →
   egress_ports (events (b_transport tx_b rx2 t2 delay s1)) = [rx1])
  ∧ (config_extension t2 = false →
     egress_ports (events (nb_transport_fw tx_nb rx2 t2 phase delay s1)) = [rx1]).
Proof.
  intros Hport1 Hfp Hs1 Hsrc.
  destruct (returned_in_state _ _ _ _ Hport1 Hs1) as (_ & _ & Hbound).
  rewrite <- Hfp in Hbound.
  pose proof (learnt_lookup_mono _ rx2 t2 _ _ Hbound) as Hdst.
  split; intros ?;
    [by apply b_unicast_ports|by apply nb_unicast_ports].
Qed.

(** X8.  A call of either transport function adds at most one binding to
    the learning table, the one for the frame's source fingerprint. *)
Theorem table_grows_by_the_source_only
    rxPortId trans phase delay (s : Sim World) :
  let grows (table' : gmap Z Z) :=
    table' = dMacCache (sw s)
    ∨ (dMacCache (sw s) !! hashMacAddr (srcAddr (data trans)) = None
       ∧ table' = <[hashMacAddr (srcAddr (data trans)) := to_uint32 rxPortId]>
                    (dMacCache (sw s))) in
  (grows (dMacCache (sw (final (b_transport tx_b rxPortId trans delay s))))
   ∧ size (dMacCache (sw (final (b_transport tx_b rxPortId trans delay s))))
     ≤ S (size (dMacCache (sw s))))%nat
  ∧ (grows (dMacCache
              (sw (final (nb_transport_fw tx_nb rxPortId trans phase delay s))))
     ∧ size (dMacCache
               (sw (final (nb_transport_fw tx_nb rxPortId trans phase delay s))))
       ≤ S (size (dMacCache (sw s))))%nat.
Proof.
  intros grows.
  assert (grows (learnt (dMacCache (sw s)) rxPortId trans)
          ∧ (size (learnt (dMacCache (sw s)) rxPortId trans)
             ≤ S (size (dMacCache (sw s))))%nat) as Hlearnt.
  { unfold grows, learnt.
    destruct (dMacCache (sw s) !! hashMacAddr (srcAddr (data trans))) eqn:Hsrc.
    - split; [by left|lia].
    - split; [by right|]. rewrite map_size_insert_None by done. lia. }
  assert (grows (dMacCache (sw s))
          ∧ (size (dMacCache (sw s)) ≤ S (size (dMacCache (sw s))))%nat)
    as Hsame by (split; [by left|lia]).
  split.
  - pose proof (b_transport_final rxPortId trans delay s) as Hb. simpl in Hb.
    destruct Hb as [[_ ->]|[(_ & _ & _ & -> & _)|(_ & _ & _ & -> & _)]]; done.
  - pose proof (nb_transport_fw_final rxPortId trans phase delay s) as Hnb.
    simpl in Hnb.
    destruct Hnb as [[_ ->]|[(_ & _ & _ & -> & _)|(_ & _ & _ & ->)]]; done.
Qed.

(** *** The mutex *)


(** X10.  [nb_transport_fw] never waits for the mutex and leaves it as it
    is: it runs to its end also while a call of [b_transport] holds the
    mutex, and it changes nothing of the switch but the learning table. *)
Theorem nb_transport_fw_ignores_the_mutex
    rxPortId trans phase delay (s : Sim World) :
  outcome (nb_transport_fw tx_nb rxPortId trans phase delay s) ≠ Suspended
  ∧ dBTransportLock
      (sw (final (nb_transport_fw tx_nb rxPortId trans phase delay s)))
    = dBTransportLock (sw s)
  ∧ dNumPorts (sw (final (nb_transport_fw tx_nb rxPortId trans phase delay s)))
    = dNumPorts (sw s)
  ∧ isMonitoringEnabled
      (sw (final (nb_transport_fw tx_nb rxPortId trans phase delay s)))
    = isMonitoringEnabled (sw s).
Proof.
  pose proof (nb_transport_fw_final rxPortId trans phase delay s) as Hnb.
  simpl in Hnb.
  destruct Hnb as [[_ ->]|[(_ & _ & -> & -> & _)|(_ & _ & [out ->] & ->)]];
    done.
Qed.

(** *** Monitoring *)

Definition with_isMonitoringEnabled (b : bool) (sw : XlTlmEthSoftSw)
    : XlTlmEthSoftSw :=
  {| dNumPorts := dNumPorts sw; isMonitoringEnabled := b;
     dMacCache := dMacCache sw; dBTransportLock := dBTransportLock sw |}.

(** The trace without the monitor writes. *)
Definition strip_monitor (evs : list Event) : list Event :=
  filter (λ e, is_monitor e = false) evs.

Lemma strip_monitor_app evs1 evs2 :
  strip_monitor (evs1 ++ evs2) = strip_monitor evs1 ++ strip_monitor evs2.
Proof. apply filter_app. Qed.

Lemma strip_monitor_tx_monitor mon i kind : strip_monitor (tx_monitor mon i kind) = [].
Proof. by destruct mon. Qed.

Lemma strip_monitor_rx_monitor mon i kind : strip_monitor (rx_monitor mon i kind) = [].
Proof. by destruct mon. Qed.

Lemma strip_monitor_stdout_monitor mon i : strip_monitor (stdout_monitor mon i) = [].
Proof. by destruct mon. Qed.

Lemma b_flood_monitoring n rxPortId : ∀ i trans delay m lk m' lk' mon N w,
  let r := b_flood World tx_b n i rxPortId trans delay
             (mkSim (mkSwitch N mon m lk) w) in
  let r' := b_flood World tx_b n i rxPortId trans delay
              (mkSim (mkSwitch N false m' lk') w) in
  outcome r = outcome r'
  ∧ world (final r) = world (final r')
  ∧ strip_monitor (events r) = events r'.
Proof.
  induction n as [|n IH]; intros i trans delay m lk m' lk' mon N w; [done|].
  cbv zeta. rewrite !b_flood_step. cbn [sw world isMonitoringEnabled].
  destruct (decide (i ≠ to_uint32 rxPortId)); [|apply IH].
  destruct (tx_b i w trans delay) as [[w' t'] d']. simpl.
  rewrite !strip_monitor_app, strip_monitor_tx_monitor. simpl.
  destruct (decide (response_status t' ≠ TLM_OK_RESPONSE)); [done|].
  destruct (IH (i + 1) t' d' m lk m' lk' mon N w') as (-> & -> & ->).
  done.
Qed.

Lemma nb_flood_monitoring n rxPortId ret : ∀ i trans phase delay m lk m' lk' mon N w,
  let r := nb_flood World tx_nb n i rxPortId ret trans phase delay
             (mkSim (mkSwitch N mon m lk) w) in
  let r' := nb_flood World tx_nb n i rxPortId ret trans phase delay
              (mkSim (mkSwitch N false m' lk') w) in
  outcome r = outcome r'
  ∧ world (final r) = world (final r')
  ∧ strip_monitor (events r) = events r'.
Proof.
  induction n as [|n IH]; intros i trans phase delay m lk m' lk' mon N w;
    [done|].
  cbv zeta. rewrite !nb_flood_step. cbn [sw world isMonitoringEnabled].
  destruct (decide (i ≠ to_uint32 rxPortId)); [|apply IH].
  destruct (tx_nb i w trans BEGIN_REQ delay) as [[[[w' t'] ph'] d'] portRet].
  simpl. rewrite !strip_monitor_app, strip_monitor_tx_monitor. simpl.
  destruct (decide (portRet ≠ TLM_COMPLETED)); [done|].
  destruct (decide (response_status t' ≠ TLM_OK_RESPONSE)); [done|].
  destruct (IH (i + 1) t' ph' d' m lk m' lk' mon N w') as (-> & -> & ->).
  done.
Qed.

(** X11.  The monitoring flag does not steer the switch.  With the writes
    to the analysis ports and to the standard output taken as events that
    change neither the frame nor the outside world (the convention of this
    model for the subscribers of the analysis ports), a call on a switch
    with monitoring enabled has the same outcome, gives the same frame,
    delay, phase and status back, makes the same egress calls in the same
    order with the same results, and leaves the same outside world,
    learning table, mutex and port count as on the switch with monitoring
    disabled: the runs differ in the monitor writes of the trace and in
    nothing else. *)
Theorem monitoring_does_not_interfere
    rxPortId trans phase delay (s : Sim World) :
  let s_off := mkSim (with_isMonitoringEnabled false (sw s)) (world s) in
  (outcome (b_transport tx_b rxPortId trans delay s)
     = outcome (b_transport tx_b rxPortId trans delay s_off)
   ∧ strip_monitor (events (b_transport tx_b rxPortId trans delay s))
     = events (b_transport tx_b rxPortId trans delay s_off)
   ∧ world (final (b_transport tx_b rxPortId trans delay s))
     = world (final (b_transport tx_b rxPortId trans delay s_off))
   ∧ with_isMonitoringEnabled false
       (sw (final (b_transport tx_b rxPortId trans delay s)))
     = sw (final (b_transport tx_b rxPortId trans delay s_off)))
  ∧ (outcome (nb_transport_fw tx_nb rxPortId trans phase delay s)
       = outcome (nb_transport_fw tx_nb rxPortId trans phase delay s_off)
     ∧ strip_monitor (events (nb_transport_fw tx_nb rxPortId trans phase delay s))
       = events (nb_transport_fw tx_nb rxPortId trans phase delay s_off)
     ∧ world (final (nb_transport_fw tx_nb rxPortId trans phase delay s))
       = world (final (nb_transport_fw tx_nb rxPortId trans phase delay s_off))
     ∧ with_isMonitoringEnabled false
         (sw (final (nb_transport_fw tx_nb rxPortId trans phase delay s)))
       = sw (final (nb_transport_fw tx_nb rxPortId trans phase delay s_off))).
Proof.
  destruct s as [[N mon m lk] w]. unfold with_isMonitoringEnabled. simpl.
  split.
  - destruct lk.
    { rewrite !b_transport_suspended by done. done. }
    destruct (source_consistent_dec m rxPortId trans)
      as [Hsrc|(second & Hsrc & Hne)].
    + destruct (learnt m rxPortId trans !! hashMacAddr (destAddr (data trans)))
        as [portId|] eqn:Hdst.
      * destruct (tx_b portId w trans delay) as [[w' t'] d'] eqn:Htx.
        rewrite (b_transport_unicast World tx_b rxPortId trans delay
                   (mkSim (mkSwitch N mon m false) w) portId w' t' d')
          by done.
        rewrite (b_transport_unicast World tx_b rxPortId trans delay
                   (mkSim (mkSwitch N false m false) w) portId w' t' d')
          by done.
        simpl.
        rewrite !strip_monitor_app, strip_monitor_rx_monitor,
          strip_monitor_stdout_monitor. done.
      * rewrite (b_transport_flood World tx_b rxPortId trans delay
                   (mkSim (mkSwitch N mon m false) w) _ eq_refl Hsrc Hdst eq_refl).
        rewrite (b_transport_flood World tx_b rxPortId trans delay
                   (mkSim (mkSwitch N false m false) w) _ eq_refl Hsrc Hdst
                   eq_refl).
        simpl.
        destruct (b_flood_monitoring (Z.to_nat N) rxPortId 0 trans delay
                    (learnt m rxPortId trans) true (learnt m rxPortId trans) true
                    mon N w) as (-> & -> & Hevs).
        rewrite !strip_monitor_app, strip_monitor_rx_monitor, Hevs. done.
    + rewrite (b_transport_abort World tx_b rxPortId trans delay
                 (mkSim (mkSwitch N mon m false) w) second) by done.
      rewrite (b_transport_abort World tx_b rxPortId trans delay
                 (mkSim (mkSwitch N false m false) w) second) by done.
      simpl. by rewrite strip_monitor_rx_monitor.
  - destruct (config_extension trans) eqn:Hcfg.
    { rewrite !nb_transport_fw_config by done. done. }
    destruct (source_consistent_dec m rxPortId trans)
      as [Hsrc|(second & Hsrc & Hne)].
    + destruct (learnt m rxPortId trans !! hashMacAddr (destAddr (data trans)))
        as [portId|] eqn:Hdst.
      * destruct (tx_nb portId w (set_response_status TLM_OK_RESPONSE trans)
                    BEGIN_REQ delay) as [[[[w' t'] ph'] d'] ret] eqn:Htx.
        rewrite (nb_transport_fw_unicast World tx_nb rxPortId trans phase delay
                   (mkSim (mkSwitch N mon m lk) w) portId w' t' ph' d' ret)
          by done.
        rewrite (nb_transport_fw_unicast World tx_nb rxPortId trans phase delay
                   (mkSim (mkSwitch N false m lk) w) portId w' t' ph' d' ret)
          by done.
        simpl.
        rewrite !strip_monitor_app, strip_monitor_rx_monitor,
          strip_monitor_tx_monitor. done.
      * rewrite (nb_transport_fw_flood World tx_nb rxPortId trans phase delay
                   (mkSim (mkSwitch N mon m lk) w)) by done.
        rewrite (nb_transport_fw_flood World tx_nb rxPortId trans phase delay
                   (mkSim (mkSwitch N false m lk) w)) by done.
        simpl. rewrite !nb_flood_sw. simpl.
        destruct (nb_flood_monitoring (Z.to_nat N) rxPortId TLM_COMPLETED 0
                    (set_response_status TLM_OK_RESPONSE trans) phase delay
                    (learnt m rxPortId trans) lk (learnt m rxPortId trans) lk
                    mon N w) as (Hout & Hw & Hevs).
        unfold with_dMacCache in Hout, Hw, Hevs |- *. simpl in Hout, Hw, Hevs |- *.
        rewrite Hout, Hw.
        rewrite !strip_monitor_app, strip_monitor_rx_monitor, Hevs. done.
    + rewrite (nb_transport_fw_abort World tx_nb rxPortId trans phase delay
                 (mkSim (mkSwitch N mon m lk) w) second) by done.
      rewrite (nb_transport_fw_abort World tx_nb rxPortId trans phase delay
                 (mkSim (mkSwitch N false m lk) w) second) by done.
      simpl. by rewrite strip_monitor_rx_monitor.
Qed.

(** *** Unicast, and a flood without targets *)

(** X12.  In the unicast branch the switch adds nothing of its own:
    [b_transport] hands the caller's frame and delay to the TX socket as
    they are and returns with what the socket left; [nb_transport_fw] hands
    over the frame with its response status set to OK and the phase
    BEGIN_REQ, whatever phase the caller passed, and returns the socket's
    return value. *)
Theorem unicast_hands_the_call_through
    rxPortId trans phase delay (s : Sim World) portId :
  dMacCache (sw s) !! hashMacAddr (destAddr (data trans)) = Some portId →
  source_consistent (dMacCache (sw s)) rxPortId trans →
  (dBTransportLock (sw s) = false →
   ∀ w t' d', tx_b portId (world s) trans delay = (w, t', d') →
   outcome (b_transport tx_b rxPortId trans delay s) = Returned (t', d')
   ∧ world (final (b_transport tx_b rxPortId trans delay s)) = w
   ∧ b_calls (events (b_transport tx_b rxPortId trans delay s))
     = [(portId, response_status t')])
  ∧ (config_extension trans = false →
     ∀ w t' ph' d' ret,
       tx_nb portId (world s) (set_response_status TLM_OK_RESPONSE trans)
         BEGIN_REQ delay = (w, t', ph', d', ret) →
       outcome (nb_transport_fw tx_nb rxPortId trans phase delay s)
         = Returned (ret, t', ph', d')
       ∧ world (final (nb_transport_fw tx_nb rxPortId trans phase delay s)) = w
       ∧ nb_calls (events (nb_transport_fw tx_nb rxPortId trans phase delay s))
         = [(portId, BEGIN_REQ, ret, response_status t')]).
Proof.
  intros Hdst Hsrc.
  pose proof (learnt_lookup_mono _ rxPortId trans _ _ Hdst) as Hdst'.
  split.
  - intros Hlock w t' d' Htx.
    rewrite (b_transport_unicast _ _ _ _ _ _ _ _ _ _ Hlock Hsrc Hdst' Htx).
    simpl. do 2 (split; [done|]).
    rewrite b_calls_rx_monitor.
    by destruct (isMonitoringEnabled (sw s)).
  - intros Hcfg w t' ph' d' ret Htx.
    rewrite (nb_transport_fw_unicast _ _ _ _ _ _ _ _ _ _ _ _ _
               Hcfg Hsrc Hdst' Htx).
    simpl. do 2 (split; [done|]).
    by rewrite nb_calls_rx_monitor, nb_calls_tx_monitor.
Qed.

(** X13.  On a switch with a single port, take a frame on port 0 whose
    destination fingerprint is unlearned and is not that of its source,
    and whose source is unbound or bound to port 0.  The frame has no port
    to go to: no egress call is made, the outside world is left as it was
    and the call returns normally, with the source bound to port 0 all the
    same: [b_transport], when the mutex is free, with the frame and the
    delay untouched; [nb_transport_fw], when the frame carries no
    configuration extension, with TLM_COMPLETED, the response status OK
    and the caller's phase and delay. *)
Theorem flood_on_a_single_port_switch trans phase delay (s : Sim World) :
  dNumPorts (sw s) = 1 →
  dMacCache (sw s) !! hashMacAddr (destAddr (data trans)) = None →
  hashMacAddr (destAddr (data trans)) ≠ hashMacAddr (srcAddr (data trans)) →
  source_consistent (dMacCache (sw s)) 0 trans →
  (dBTransportLock (sw s) = false →
   outcome (b_transport tx_b 0 trans delay s) = Returned (trans, delay)
   ∧ egress_ports (events (b_transport tx_b 0 trans delay s)) = []
   ∧ world (final (b_transport tx_b 0 trans delay s)) = world s
   ∧ dMacCache (sw (final (b_transport tx_b 0 trans delay s)))
       !! hashMacAddr (srcAddr (data trans)) = Some 0)
  ∧ (config_extension trans = false →
     outcome (nb_transport_fw tx_nb 0 trans phase delay s)
       = Returned (TLM_COMPLETED, set_response_status TLM_OK_RESPONSE trans,
                   phase, delay)
     ∧ egress_ports (events (nb_transport_fw tx_nb 0 trans phase delay s)) = []
     ∧ world (final (nb_transport_fw tx_nb 0 trans phase delay s)) = world s
     ∧ dMacCache (sw (final (nb_transport_fw tx_nb 0 trans phase delay s)))
         !! hashMacAddr (srcAddr (data trans)) = Some 0).
Proof.
  intros HN Hdst Hne Hsrc.
  pose proof (learnt_dest_unlearned _ 0 _ Hdst Hne) as Hdst'.
  pose proof (learnt_lookup_source _ _ _ Hsrc) as Hbound.
  change (to_uint32 0) with 0 in Hbound.
  split.
  - intros Hlock.
    rewrite (b_transport_flood _ _ _ _ _ _ _ Hlock Hsrc Hdst' eq_refl).
    rewrite HN. change (Z.to_nat 1) with 1%nat. rewrite b_flood_step.
    destruct (decide (0 ≠ to_uint32 0)) as [Hbad|_]; [by destruct Hbad|].
    destruct (isMonitoringEnabled (sw s)); simpl; done.
  - intros Hcfg.
    rewrite (nb_transport_fw_flood _ _ _ _ _ _ _ Hcfg Hsrc Hdst').
    rewrite HN. change (Z.to_nat 1) with 1%nat. rewrite nb_flood_step.
    destruct (decide (0 ≠ to_uint32 0)) as [Hbad|_]; [by destruct Hbad|].
    destruct (isMonitoringEnabled (sw s)); simpl; done.
Qed.

End MoreOnTheSwitch.

(** ** The constructor *)


(** [sprintf( name, "...%d", i )] with an [unsigned] argument: the value is
    printed as the [int] with the same bits. *)
Definition format_d (i : Z) : string :=
  pretty (if decide (i < 2 ^ 31) then i else i - 2 ^ 32).

(** The port vectors of the switch, each entry standing for the socket or
    analysis port of that name, and the tags under which [b_transport] and
    [nb_transport_fw] were registered on the RX sockets, in order of
    registration. *)
Record PortVectors : Type := mkPortVectors {
  rxPorts : list string;
  txPorts : list string;
  analysisRxPorts : list string;
  analysisTxPorts : list string;
  registeredTags : list Z
}.

(** The loop of the constructor, [for( unsigned i=0; i<numPorts; i++ )]:
    [n] iterations are left and the loop variable is [i]. *)
Fixpoint construct_ports (n : nat) (i : Z) (v : PortVectors) : PortVectors :=
  match n with
  | O => v
  | S n' =>
      construct_ports n' (i + 1)
        {| rxPorts := rxPorts v ++ ["rxPort" +:+ format_d i];
           txPorts := txPorts v ++ ["txPort" +:+ format_d i];
           analysisRxPorts :=
             analysisRxPorts v ++ ["analysisRxPort" +:+ format_d i];
           analysisTxPorts :=
             analysisTxPorts v ++ ["analysisTxPort" +:+ format_d i];
           registeredTags := registeredTags v ++ [i] |}
  end.

(** [XlTlmEthSoftSw::XlTlmEthSoftSw( name, numPorts )]: the data members
    and the port vectors of the new switch. *)
Definition XlTlmEthSoftSw_new (numPorts : Z) : XlTlmEthSoftSw * PortVectors :=
  (mkSwitch numPorts false ∅ false,
   construct_ports (Z.to_nat numPorts) 0 (mkPortVectors [] [] [] [] [])).

Lemma construct_ports_spec n : ∀ i v,
  let v' := construct_ports n i v in
  rxPorts v' = rxPorts v ++ ((λ j, "rxPort" +:+ format_d j) <$> seqZ i (Z.of_nat n))
  ∧ txPorts v' = txPorts v ++ ((λ j, "txPort" +:+ format_d j) <$> seqZ i (Z.of_nat n))
  ∧ analysisRxPorts v'
    = analysisRxPorts v
      ++ ((λ j, "analysisRxPort" +:+ format_d j) <$> seqZ i (Z.of_nat n))
  ∧ analysisTxPorts v'
    = analysisTxPorts v
      ++ ((λ j, "analysisTxPort" +:+ format_d j) <$> seqZ i (Z.of_nat n))
  ∧ registeredTags v' = registeredTags v ++ seqZ i (Z.of_nat n).
Proof.
  induction n as [|n IH]; intros i v.
  - simpl. by rewrite !app_nil_r.
  - cbn [construct_ports]. cbv zeta.
    destruct (IH (i + 1)
                {| rxPorts := rxPorts v ++ ["rxPort" +:+ format_d i];
                   txPorts := txPorts v ++ ["txPort" +:+ format_d i];
                   analysisRxPorts :=
                     analysisRxPorts v ++ ["analysisRxPort" +:+ format_d i];
                   analysisTxPorts :=
                     analysisTxPorts v ++ ["analysisTxPort" +:+ format_d i];
                   registeredTags := registeredTags v ++ [i] |})
      as (-> & -> & -> & -> & ->).
    rewrite seqZ_succ. cbn [rxPorts txPorts analysisRxPorts analysisTxPorts
                            registeredTags].
    rewrite !fmap_cons, <- !app_assoc. done.
Qed.

Lemma format_d_inj i j :
  0 ≤ i < 2 ^ 32 → 0 ≤ j < 2 ^ 32 → format_d i = format_d j → i = j.
Proof.
  unfold format_d. intros Hi Hj Heq. apply (inj pretty) in Heq.
  destruct (decide (i < 2 ^ 31)), (decide (j < 2 ^ 31)); lia.
Qed.

Lemma port_names_NoDup (prefix : string) (numPorts : Z) :
  numPorts ≤ 2 ^ 32 →
  NoDup ((λ j, prefix +:+ format_d j) <$> seqZ 0 numPorts).
Proof.
  intros HN. apply NoDup_fmap_2_strong; [|apply NoDup_seqZ].
  intros i j Hi%elem_of_seqZ Hj%elem_of_seqZ Heq.
  apply format_d_inj; [lia..|].
  by apply (inj (String.append prefix)) in Heq.
Qed.

(** X14.  A switch constructed with [numPorts] ports has an empty learning
    table, monitoring disabled and the mutex free; each of its four port
    vectors has [numPorts] entries; the transport callbacks are registered
    under the tags 0 .. numPorts-1, so that every ingress port the
    callbacks are told is an index into the port vectors; and within each
    vector the names of the ports differ from one another. *)
Theorem constructed_switch numPorts :
  0 ≤ numPorts < 2 ^ 32 →
  let sw := (XlTlmEthSoftSw_new numPorts).1 in
  let v := (XlTlmEthSoftSw_new numPorts).2 in
  dNumPorts sw = numPorts
  ∧ dMacCache sw = ∅ ∧ isMonitoringEnabled sw = false
  ∧ dBTransportLock sw = false
  ∧ length (rxPorts v) = Z.to_nat numPorts
  ∧ length (txPorts v) = Z.to_nat numPorts
  ∧ length (analysisRxPorts v) = Z.to_nat numPorts
  ∧ length (analysisTxPorts v) = Z.to_nat numPorts
  ∧ registeredTags v = seqZ 0 numPorts
  ∧ (∀ rxPortId, rxPortId ∈ registeredTags v → valid_port sw rxPortId)
  ∧ NoDup (rxPorts v) ∧ NoDup (txPorts v)
  ∧ NoDup (analysisRxPorts v) ∧ NoDup (analysisTxPorts v).
Proof.
  intros HN sw v. subst sw v. unfold XlTlmEthSoftSw_new.
  destruct (construct_ports_spec (Z.to_nat numPorts) 0
              (mkPortVectors [] [] [] [] [])) as (Hrx & Htx & Harx & Hatx & Htags).
  rewrite Z2Nat.id in Hrx, Htx, Harx, Hatx, Htags by lia.
  cbn [fst snd dNumPorts dMacCache isMonitoringEnabled dBTransportLock].
  rewrite Hrx, Htx, Harx, Hatx, Htags.
  cbn [rxPorts txPorts analysisRxPorts analysisTxPorts registeredTags app].
  rewrite !length_fmap, !length_seqZ.
  do 9 (split; [done|]).
  split.
  - intros rxPortId Hin%elem_of_seqZ. unfold valid_port. simpl. lia.
  - repeat split; apply port_names_NoDup; lia.
Qed.

Lemma constructed_switch_witness :
  0 ≤ 3 < 2 ^ 32
  ∧ rxPorts (XlTlmEthSoftSw_new 3).2 = ["rxPort0"; "rxPort1"; "rxPort2"]
  ∧ registeredTags (XlTlmEthSoftSw_new 3).2 = seqZ 0 3
  ∧ NoDup (analysisTxPorts (XlTlmEthSoftSw_new 3).2).
Proof.
  assert (0 ≤ 3 < 2 ^ 32) as HN by lia.
  destruct (constructed_switch 3 HN)
    as (_ & _ & _ & _ & _ & _ & _ & _ & Htags & _ & _ & _ & _ & Hnames).
  split; [exact HN|]. split; [reflexivity|]. split; [exact Htags|exact Hnames].
Defined.

(** * The receive side of the Python gateway

    [rxFrameHandler] and [recvEthernetPacket] of VsiTcpUdpPythonGateway.cxx,
    over the four file-level maps keyed by the source port number, a
    [uint16_t].  [recvEthernetPacket] is called from Python with an
    argument tuple, out of which [PyArg_ParseTuple] takes the source port.
    The other functions of that file only pass their arguments on to the
    gateway object. *)

Module Gateway.

(** Conversion to [uint16_t] and [unsigned short]. *)
Definition to_uint16 (z : Z) : Z := z mod 2 ^ 16.

(** What an argument tuple holds: Python integers, of any size and sign,
    and objects that are no integers. *)
Inductive PyObject : Type :=
  | PyLong (z : Z)
  | PyNoInteger.

(** [PyArg_ParseTuple (args, "H", &srcPortNum)] with [uint16_t srcPortNum]:
    the tuple has to hold exactly one integer, which CPython converts to an
    unsigned short without overflow checking; on anything else the parse
    fails, with a Python exception set. *)
Definition PyArg_ParseTuple_H (args : list PyObject) : option Z :=
  match args with
  | [PyLong z] => Some (to_uint16 z)
  | _ => None
  end.

Record State : Type := mkState {
  receivedEthPacketMap : gmap Z (list Byte.byte);
  isEthPacketReceived : gmap Z bool;
  destPortNumberMap : gmap Z Z;
  numberOfBytesMap : gmap Z Z
}.

(** The tuple built by [Py_BuildValue ("HHy#K", ...)]. *)
Record Packet : Type := mkPacket {
  destPortNum : Z;
  srcPortNum : Z;
  payload : list Byte.byte;
  numBytes : Z
}.

(** [m[k]] of [std::map] as an rvalue: a missing key is inserted with the
    value-initialised element. *)
Definition index {A} (zero : A) (k : Z) (m : gmap Z A) : A * gmap Z A :=
  match m !! k with
  | Some v => (v, m)
  | None => (zero, <[k := zero]> m)
  end.

(** [v.resize(n)] of [std::vector<uint8_t>]. *)
Definition resize (n : nat) (v : list Byte.byte) : list Byte.byte :=
  take n v ++ replicate (n - length v) Byte.x00.

(** [memcpy(dst, src, n)], for [n] bytes present on both sides. *)
Definition memcpy (dst src : list Byte.byte) (n : nat) : list Byte.byte :=
  take n src ++ drop n dst.

Section WithBufferSize.

(** The constant of VsiTcpUdpGateway.h, which is not among the sources. *)
Variable ETH_PACKET_MAX_BYTES : nat.

(** The first statement of both functions: a source port without a buffer
    gets one of [ETH_PACKET_MAX_BYTES] zero bytes. *)
Definition ensure_buffer (src : Z) (m : gmap Z (list Byte.byte))
    : gmap Z (list Byte.byte) :=
  match m !! src with
  | Some _ => m
  | None => <[src := replicate ETH_PACKET_MAX_BYTES Byte.x00]> m
  end.

(** The parameters are [unsigned numBytes] and [unsigned short destPortNum,
    srcPortNum]: what the caller passes is taken in these types. *)
Definition rxFrameHandler (data : list Byte.byte) (n : Z)
    (destPort srcPort : Z) (st : State) : State :=
  let n := to_uint32 n in
  let destPort := to_uint16 destPort in
  let srcPort := to_uint16 srcPort in
  let received := ensure_buffer srcPort (receivedEthPacketMap st) in
  let '(buffer, received) := index [] srcPort received in
  let buffer :=
    if decide (Z.of_nat (length buffer) < n) then resize (Z.to_nat n) buffer
    else buffer in
  {| receivedEthPacketMap :=
       <[srcPort := memcpy buffer data (Z.to_nat n)]> received;
     isEthPacketReceived := <[srcPort := true]> (isEthPacketReceived st);
     destPortNumberMap := <[srcPort := destPort]> (destPortNumberMap st);
     numberOfBytesMap := <[srcPort := n]> (numberOfBytesMap st) |}.

(** [None] is the [NULL] of a failed parse, which leaves the maps alone.
    Both branches of the [if] build the same tuple. *)
Definition recvEthernetPacket (args : list PyObject) (st : State)
    : option Packet * State :=
  match PyArg_ParseTuple_H args with
  | None => (None, st)
  | Some srcPort =>
      let received := ensure_buffer srcPort (receivedEthPacketMap st) in
      let '(flag, flags) := index false srcPort (isEthPacketReceived st) in
      let flags :=
        if flag && bool_decide (is_Some (received !! srcPort))
        then <[srcPort := false]> flags else flags in
      let '(dest, dests) := index 0 srcPort (destPortNumberMap st) in
      let '(buffer, received) := index [] srcPort received in
      let '(n, counts) := index 0 srcPort (numberOfBytesMap st) in
      (Some {| destPortNum := dest; srcPortNum := srcPort;
               payload := take (Z.to_nat n) buffer; numBytes := n |},
       {| receivedEthPacketMap := received; isEthPacketReceived := flags;
          destPortNumberMap := dests; numberOfBytesMap := counts |})
  end.

(** ** Conversions and the argument tuple *)

Lemma to_uint16_range z : 0 ≤ to_uint16 z < 2 ^ 16.
Proof. unfold to_uint16. apply Z.mod_pos_bound. lia. Qed.



Lemma PyArg_ParseTuple_H_range args srcPort :
  PyArg_ParseTuple_H args = Some srcPort → 0 ≤ srcPort < 2 ^ 16.
Proof.
  destruct args as [|[z|] [|? ?]]; simpl; try discriminate.
  intros [= <-]. apply to_uint16_range.
Qed.

(** ** The map operations *)

Lemma index_value {A} (zero : A) k m : (index zero k m).1 = default zero (m !! k).
Proof. unfold index. by destruct (m !! k). Qed.

Lemma index_lookup {A} (zero : A) k m :
  (index zero k m).2 !! k = Some (default zero (m !! k)).
Proof.
  unfold index. destruct (m !! k) eqn:Hk; simpl; [done|].
  apply lookup_insert_eq.
Qed.

Lemma index_lookup_ne {A} (zero : A) k k' m :
  k ≠ k' → (index zero k m).2 !! k' = m !! k'.
Proof.
  intros Hne. unfold index. destruct (m !! k); simpl; [done|].
  by apply lookup_insert_ne.
Qed.

Lemma index_present {A} (zero : A) k m v :
  m !! k = Some v → index zero k m = (v, m).
Proof. unfold index. by intros ->. Qed.

Lemma ensure_buffer_lookup src m :
  ensure_buffer src m !! src
  = Some (default (replicate ETH_PACKET_MAX_BYTES Byte.x00) (m !! src)).
Proof.
  unfold ensure_buffer. destruct (m !! src) eqn:Hsrc; simpl; [done|].
  apply lookup_insert_eq.
Qed.

Lemma ensure_buffer_lookup_ne src src' m :
  src ≠ src' → ensure_buffer src m !! src' = m !! src'.
Proof.
  intros Hne. unfold ensure_buffer. destruct (m !! src); [done|].
  by apply lookup_insert_ne.
Qed.

(** The buffer of a source port once a frame of [n] bytes has to fit. *)
Definition grown (n : Z) (buffer : list Byte.byte) : list Byte.byte :=
  if decide (Z.of_nat (length buffer) < n) then resize (Z.to_nat n) buffer
  else buffer.



(** The state [rxFrameHandler] leaves, map by map. *)
Lemma rxFrameHandler_maps data n destPort srcPort st :
  let st1 := rxFrameHandler data n destPort srcPort st in
  let src := to_uint16 srcPort in
  let count := to_uint32 n in
  let old := default (replicate ETH_PACKET_MAX_BYTES Byte.x00)
               (receivedEthPacketMap st !! src) in
  receivedEthPacketMap st1
    = <[src := memcpy (grown count old) data (Z.to_nat count)]>
        (receivedEthPacketMap st)
  ∧ isEthPacketReceived st1 = <[src := true]> (isEthPacketReceived st)
  ∧ destPortNumberMap st1
    = <[src := to_uint16 destPort]> (destPortNumberMap st)
  ∧ numberOfBytesMap st1 = <[src := count]> (numberOfBytesMap st).
Proof.
  intros st1 src count old. subst st1 old. unfold rxFrameHandler.
  fold src count.
  rewrite (index_present [] src _ _ (ensure_buffer_lookup src _)).
  cbn [receivedEthPacketMap isEthPacketReceived destPortNumberMap
       numberOfBytesMap].
  split; [|done]. unfold grown, ensure_buffer.
  destruct (receivedEthPacketMap st !! src) eqn:Hsrc; simpl; [done|].
  apply insert_insert_eq.
Qed.

(** A call whose argument tuple does not parse. *)
Lemma recvEthernetPacket_failed args st :
  PyArg_ParseTuple_H args = None → recvEthernetPacket args st = (None, st).
Proof. intros Hargs. unfold recvEthernetPacket. by rewrite Hargs. Qed.

(** What [recvEthernetPacket] hands back. *)
Lemma recvEthernetPacket_packet args srcPort st :
  PyArg_ParseTuple_H args = Some srcPort →
  (recvEthernetPacket args st).1
  = Some {| destPortNum := default 0 (destPortNumberMap st !! srcPort);
            srcPortNum := srcPort;
            payload :=
              take (Z.to_nat (default 0 (numberOfBytesMap st !! srcPort)))
                (default (replicate ETH_PACKET_MAX_BYTES Byte.x00)
                   (receivedEthPacketMap st !! srcPort));
            numBytes := default 0 (numberOfBytesMap st !! srcPort) |}.
Proof.
  intros Hargs. unfold recvEthernetPacket. rewrite Hargs.
  rewrite (index_present [] srcPort _ _ (ensure_buffer_lookup srcPort _)).
  destruct (index false srcPort (isEthPacketReceived st)) as [flag flags].
  pose proof (index_value 0 srcPort (destPortNumberMap st)) as Hdest.
  pose proof (index_value 0 srcPort (numberOfBytesMap st)) as Hcount.
  destruct (index 0 srcPort (destPortNumberMap st)) as [dest dests].
  destruct (index 0 srcPort (numberOfBytesMap st)) as [n counts].
  simpl in *. by subst.
Qed.

(** The state [recvEthernetPacket] leaves, at the source port asked for and
    at the others. *)
Lemma recvEthernetPacket_maps args srcPort st :
  PyArg_ParseTuple_H args = Some srcPort →
  let st1 := (recvEthernetPacket args st).2 in
  receivedEthPacketMap st1 = ensure_buffer srcPort (receivedEthPacketMap st)
  ∧ isEthPacketReceived st1 !! srcPort = Some false
  ∧ (∀ src, src ≠ srcPort →
       isEthPacketReceived st1 !! src = isEthPacketReceived st !! src)
  ∧ destPortNumberMap st1 = (index 0 srcPort (destPortNumberMap st)).2
  ∧ numberOfBytesMap st1 = (index 0 srcPort (numberOfBytesMap st)).2.
Proof.
  intros Hargs st1. subst st1. unfold recvEthernetPacket. rewrite Hargs.
  rewrite (index_present [] srcPort _ _ (ensure_buffer_lookup srcPort _)).
  pose proof (index_value false srcPort (isEthPacketReceived st)) as Hflag.
  pose proof (index_lookup false srcPort (isEthPacketReceived st)) as Hflags.
  pose proof (index_lookup_ne false srcPort) as Hother.
  specialize (λ src, Hother src (isEthPacketReceived st)).
  destruct (index false srcPort (isEthPacketReceived st)) as [flag flags].
  destruct (index 0 srcPort (destPortNumberMap st)) as [dest dests].
  destruct (index 0 srcPort (numberOfBytesMap st)) as [n counts].
  simpl in *. split; [done|]. rewrite ensure_buffer_lookup.
  rewrite bool_decide_eq_true_2 by eauto. rewrite andb_true_r.
  split; [|split; [|done]].
  - destruct flag; [apply lookup_insert_eq|]. by rewrite Hflags, <- Hflag.
  - intros src Hne. destruct flag; [rewrite lookup_insert_ne by done|]; auto.
Qed.

(** The keys of the four maps are port numbers: an entry that one of the
    two functions adds is under a key below 65536. *)
Definition new_keys_are_ports (st st1 : State) : Prop :=
  ∀ k,
    (is_Some (receivedEthPacketMap st1 !! k)
     ∨ is_Some (isEthPacketReceived st1 !! k)
     ∨ is_Some (destPortNumberMap st1 !! k)
     ∨ is_Some (numberOfBytesMap st1 !! k)) →
    0 ≤ k < 2 ^ 16
    ∨ is_Some (receivedEthPacketMap st !! k)
    ∨ is_Some (isEthPacketReceived st !! k)
    ∨ is_Some (destPortNumberMap st !! k)
    ∨ is_Some (numberOfBytesMap st !! k).

Lemma rxFrameHandler_keys data n destPort srcPort st :
  new_keys_are_ports st (rxFrameHandler data n destPort srcPort st).
Proof.
  intros k.
  destruct (rxFrameHandler_maps data n destPort srcPort st)
    as (-> & -> & -> & ->).
  destruct (decide (to_uint16 srcPort = k)) as [<-|Hne].
  - intros _. left. apply to_uint16_range.
  - rewrite !lookup_insert_ne by done. tauto.
Qed.

Lemma recvEthernetPacket_keys args st :
  new_keys_are_ports st (recvEthernetPacket args st).2.
Proof.
  intros k. destruct (PyArg_ParseTuple_H args) as [srcPort|] eqn:Hargs.
  - destruct (decide (srcPort = k)) as [<-|Hne].
    { intros _. left. by apply (PyArg_ParseTuple_H_range args). }
    destruct (recvEthernetPacket_maps args srcPort st Hargs)
      as (-> & _ & -> & -> & ->); [|done].
    rewrite ensure_buffer_lookup_ne, !index_lookup_ne by done. tauto.
  - rewrite recvEthernetPacket_failed by done. simpl. tauto.
Qed.

(** ** Receiving *)


(** X16.  [recvEthernetPacket] returns the same tuple when it is called
    again with the same arguments and no frame in between: the last frame
    is delivered again, and nothing in the tuple tells a fresh frame from a
    stale one. *)
Theorem stale_packet_is_delivered_again args st :
  (recvEthernetPacket args (recvEthernetPacket args st).2).1
  = (recvEthernetPacket args st).1.
Proof.
  destruct (PyArg_ParseTuple_H args) as [srcPort|] eqn:Hargs.
  - destruct (recvEthernetPacket_maps args srcPort st Hargs)
      as (Hbuf & _ & _ & Hdest & Hcount).
    rewrite !(recvEthernetPacket_packet args srcPort) by done.
    rewrite Hbuf, Hdest, Hcount.
    rewrite ensure_buffer_lookup, !index_lookup. done.
  - by rewrite !recvEthernetPacket_failed.
Qed.

(** X17.  [recvEthernetPacket] called with one Python integer takes the
    integer modulo 65536 as the source port.  For a source port on which
    nothing was ever received it returns destination port 0, that source
    port, no bytes and the count 0, and not an error. *)
Theorem recv_on_a_silent_port z st :
  destPortNumberMap st !! to_uint16 z = None →
  numberOfBytesMap st !! to_uint16 z = None →
  (recvEthernetPacket [PyLong z] st).1
  = Some {| destPortNum := 0; srcPortNum := to_uint16 z; payload := [];
            numBytes := 0 |}.
Proof.
  intros Hdest Hcount.
  rewrite (recvEthernetPacket_packet _ (to_uint16 z)) by done.
  rewrite Hdest, Hcount. done.
Qed.

(** X18.  Frames of one source port do not disturb another: what
    [recvEthernetPacket] returns for a source port is not changed by a
    frame received, or a receive call made, for a source port that differs
    from it modulo 65536. *)
Theorem source_ports_are_independent data n destPort srcPort srcPort' st :
  to_uint16 srcPort ≠ to_uint16 srcPort' →
  (recvEthernetPacket [PyLong srcPort']
     (rxFrameHandler data n destPort srcPort st)).1
    = (recvEthernetPacket [PyLong srcPort'] st).1
  ∧ (recvEthernetPacket [PyLong srcPort']
       (recvEthernetPacket [PyLong srcPort] st).2).1
    = (recvEthernetPacket [PyLong srcPort'] st).1.
Proof.
  intros Hne.
  assert (PyArg_ParseTuple_H [PyLong srcPort'] = Some (to_uint16 srcPort'))
    as Hargs' by done.
  split.
  - destruct (rxFrameHandler_maps data n destPort srcPort st)
      as (Hbuf & _ & Hdest & Hcount).
    rewrite !(recvEthernetPacket_packet _ _ _ Hargs'), Hbuf, Hdest, Hcount.
    by rewrite !lookup_insert_ne.
  - destruct (recvEthernetPacket_maps [PyLong srcPort] (to_uint16 srcPort) st)
      as (Hbuf & _ & _ & Hdest & Hcount); [done|].
    rewrite !(recvEthernetPacket_packet _ _ _ Hargs'), Hbuf, Hdest, Hcount.
    by rewrite ensure_buffer_lookup_ne, !index_lookup_ne.
Qed.


(** The state before any frame: the four maps are empty. *)
Definition initial : State := mkState ∅ ∅ ∅ ∅.



End WithBufferSize.

End Gateway.

(** * The VPI time stub

    [vpi_get_time] of SyscVpiTimeStub.cxx.  The current time in picoseconds
    is computed in floating point, [sc_time_stamp().to_seconds()*1e12], and
    converted to [unsigned long long]; the function is modelled from that
    64-bit value on. *)

Module VpiTimeStub.

(** The two words of [s_vpi_time] the function writes, both [PLI_UINT32]. *)
Record s_vpi_time : Type := mk_vpi_time {
  high : Z;
  low : Z
}.

(** [vpi_get_time( object, time_p )]: [object_is_null] is the condition of
    the assert, [None] its failure. *)
Definition vpi_get_time (object_is_null : bool) (currentTimeInPs : Z)
    : option s_vpi_time :=
  if object_is_null then
    Some {| low := to_uint32 currentTimeInPs;
            high := to_uint32 (Z.shiftr currentTimeInPs 32) |}
  else None.

(** X20.  For the required usage (null object) [vpi_get_time] splits the
    64-bit time into two 32-bit words without loss: [high] * 2^32 + [low]
    is the time again. *)
Theorem vpi_get_time_splits_without_loss currentTimeInPs :
  0 ≤ currentTimeInPs < 2 ^ 64 →
  ∃ t, vpi_get_time true currentTimeInPs = Some t
       ∧ 0 ≤ low t < 2 ^ 32 ∧ 0 ≤ high t < 2 ^ 32
       ∧ high t * 2 ^ 32 + low t = currentTimeInPs.
Proof.
  intros Ht. eexists. split; [reflexivity|]. simpl. unfold to_uint32.
  rewrite Z.shiftr_div_pow2 by lia.
  assert (0 ≤ currentTimeInPs / 2 ^ 32 < 2 ^ 32) as Hhigh.
  { split; [apply Z.div_pos; lia|]. apply Z.div_lt_upper_bound; lia. }
  rewrite (Z.mod_small (currentTimeInPs / 2 ^ 32)) by done.
  pose proof (Z.mod_pos_bound currentTimeInPs (2 ^ 32) ltac:(lia)).
  pose proof (Z.div_mod currentTimeInPs (2 ^ 32) ltac:(lia)). lia.
Qed.

Lemma vpi_get_time_splits_without_loss_witness :
  0 ≤ 5000000000000 < 2 ^ 64
  ∧ ∃ t, vpi_get_time true 5000000000000 = Some t
         ∧ 0 ≤ low t < 2 ^ 32 ∧ 0 ≤ high t < 2 ^ 32
         ∧ high t * 2 ^ 32 + low t = 5000000000000.
Proof.
  assert (0 ≤ 5000000000000 < 2 ^ 64) as Ht by lia.
  split; [exact Ht|]. exact (vpi_get_time_splits_without_loss _ Ht).
Defined.

End VpiTimeStub.

(** * Conduit names

    The names [initializeConnection] of VsiCommonPythonApi.cxx and
    [initialize] of VsiTcpUdpPythonGateway.cxx build from the conduit id. *)

Module Conduits.

(** [std::to_string(conduitId)] for an [unsigned int]. *)
Definition to_string (conduitId : Z) : string := pretty conduitId.

(** The strings [initializeConnection] builds, in the order of the source. *)
Definition initializeConnection_names (conduitId : Z) : list string :=
  let conduitIdString := to_string conduitId in
  [":remoteSession" +:+ conduitIdString;
   ":timeServerConduit" +:+ conduitIdString;
   ":resetServerConduit" +:+ conduitIdString;
   ":rxEtherFrameConduit" +:+ conduitIdString;
   ":txEtherFrameConduit" +:+ conduitIdString;
   ":rxConfigPort" +:+ conduitIdString;
   ":txConfigPort" +:+ conduitIdString].

(** The two strings [initialize] of the gateway builds: the RX and the TX
    conduit. *)
Definition initialize_names (conduitId : Z) : string * string :=
  let conduitIdString := to_string conduitId in
  (":rxEtherFrameConduit" +:+ conduitIdString,
   ":txEtherFrameConduit" +:+ conduitIdString).

(** X21.  The seven names built for one conduit id differ from one another,
    names built for different conduit ids differ, and the gateway's
    [initialize] builds for its RX and TX conduits the very names
    [initializeConnection] builds for them. *)
Theorem conduit_names_are_distinct conduitId :
  NoDup (initializeConnection_names conduitId)
  ∧ (∀ conduitId' name,
       name ∈ initializeConnection_names conduitId →
       name ∈ initializeConnection_names conduitId' →
       conduitId = conduitId')
  ∧ initializeConnection_names conduitId !! 3%nat
    = Some (initialize_names conduitId).1
  ∧ initializeConnection_names conduitId !! 4%nat
    = Some (initialize_names conduitId).2.
Proof.
  split; [|split; [|split; reflexivity]].
  - unfold initializeConnection_names. cbv zeta.
    repeat (apply NoDup_cons_2;
            [rewrite ?not_elem_of_cons; simpl;
             repeat (split; [discriminate|]); apply not_elem_of_nil|]).
    apply NoDup_nil_2.
  - intros conduitId' name Hin Hin'.
    unfold initializeConnection_names in Hin, Hin'. cbv zeta in Hin, Hin'.
    rewrite !elem_of_cons, elem_of_nil in Hin, Hin'. simpl in Hin, Hin'.
    apply (inj pretty).
    unfold to_string in Hin'.
    destruct Hin as [->|[->|[->|[->|[->|[->|[->|[]]]]]]]];
      destruct Hin' as [H|[H|[H|[H|[H|[H|[H|[]]]]]]]];
      first [discriminate H | exact (inj (String.app _) _ _ H)].
Qed.

End Conduits.

(** * The further theorems on concrete runs *)

Module MoreScenarios.

(** An address with the fingerprint of [mac1]: the last two bytes
    exchanged. *)
Definition mac1' : list Byte.byte :=
  [Byte.xaa; Byte.xbb; Byte.xcc; Byte.x00; Byte.x01; Byte.x00].

(** The 3-port switch after a first frame from [mac1] on port 0. *)
Definition after_first_frame : Sim unit :=
  final (b_transport tx_b_ok 0 (frame mac1 mac2) 0 (switch 3 ∅)).

Lemma after_first_frame_returned :
  returned_in tx_b_ok tx_nb_ok (switch 3 ∅) 0 (frame mac1 mac2) after_first_frame.
Proof.
  left. exists 0. eexists. split; reflexivity.
Defined.

Lemma source_is_bound_after_call_witness :
  valid_port (sw (switch 3 ∅)) 0
  ∧ dMacCache (sw (final (b_transport tx_b_ok 0 (frame mac1 mac2) 0 (switch 3 ∅))))
      !! hashMacAddr (srcAddr (data (frame mac1 mac2))) = Some 0
  ∧ dMacCache
      (sw (final (nb_transport_fw tx_nb_ok 0 (frame mac1 mac2) BEGIN_REQ 0
                    (switch 3 ∅))))
      !! hashMacAddr (srcAddr (data (frame mac1 mac2))) = Some 0.
Proof.
  assert (valid_port (sw (switch 3 ∅)) 0) as Hport by port_ok.
  destruct (source_is_bound_after_call tx_b_ok tx_nb_ok 0 (frame mac1 mac2)
              BEGIN_REQ 0 (switch 3 ∅) Hport) as [Hb Hnb].
  split; [exact Hport|]. split.
  - eapply Hb. reflexivity.
  - eapply (Hnb eq_refl). reflexivity.
Defined.

Lemma table_ports_stay_in_range_witness :
  valid_port (sw (switch 3 {[ hashMacAddr mac2 := 1 ]})) 0
  ∧ ports_in_range (sw (switch 3 {[ hashMacAddr mac2 := 1 ]}))
  ∧ ports_in_range
      (sw (final (b_transport tx_b_ok 0 (frame mac1 mac2) 0
                    (switch 3 {[ hashMacAddr mac2 := 1 ]}))))
  ∧ ports_in_range
      (sw (final (nb_transport_fw tx_nb_ok 0 (frame mac1 mac2) BEGIN_REQ 0
                    (switch 3 {[ hashMacAddr mac2 := 1 ]})))).
Proof.
  assert (valid_port (sw (switch 3 {[ hashMacAddr mac2 := 1 ]})) 0) as Hport
    by port_ok.
  assert (ports_in_range (sw (switch 3 {[ hashMacAddr mac2 := 1 ]}))) as Hrange.
  { intros k p Hk. simpl in Hk. apply lookup_singleton_Some in Hk as [_ <-].
    simpl. lia. }
  split; [exact Hport|]. split; [exact Hrange|].
  exact (table_ports_stay_in_range tx_b_ok tx_nb_ok 0 (frame mac1 mac2)
           BEGIN_REQ 0 _ Hport Hrange).
Defined.

Lemma egress_ports_ascending_in_range_witness :
  valid_port (sw (switch 4 ∅)) 1
  ∧ ports_in_range (sw (switch 4 ∅))
  ∧ egress_ports (events (b_transport (tx_b_failing 2) 1 (frame mac1 mac2) 0
                            (switch 4 ∅))) = [0; 2]
  ∧ StronglySorted Z.lt
      (egress_ports (events (b_transport (tx_b_failing 2) 1 (frame mac1 mac2) 0
                               (switch 4 ∅))))
  ∧ Forall (λ p, 0 ≤ p < 4)
      (egress_ports (events (nb_transport_fw (tx_nb_queueing 2) 1
                               (frame mac1 mac2) BEGIN_REQ 0 (switch 4 ∅)))).
Proof.
  assert (valid_port (sw (switch 4 ∅)) 1) as Hport by port_ok.
  assert (ports_in_range (sw (switch 4 ∅))) as Hrange.
  { intros k p Hk. simpl in Hk. by rewrite lookup_empty in Hk. }
  destruct (egress_ports_ascending_in_range (tx_b_failing 2) (tx_nb_queueing 2)
              1 (frame mac1 mac2) BEGIN_REQ 0 (switch 4 ∅) Hport Hrange)
    as [[Hsorted _] [_ Hin]].
  split; [exact Hport|]. split; [exact Hrange|]. split; [reflexivity|].
  split; [exact Hsorted|exact Hin].
Defined.

Lemma same_fingerprint_on_another_port_fails_witness :
  valid_port (sw (switch 3 ∅)) 0
  ∧ valid_port (sw (switch 3 ∅)) 2
  ∧ 2 ≠ 0
  ∧ mac1' ≠ mac1
  ∧ hashMacAddr (srcAddr (data (frame mac1' mac2)))
    = hashMacAddr (srcAddr (data (frame mac1 mac2)))
  ∧ (outcome (b_transport tx_b_ok 2 (frame mac1' mac2) 0 after_first_frame)
       = AssertionFailed
     ∧ egress_ports
         (events (b_transport tx_b_ok 2 (frame mac1' mac2) 0 after_first_frame))
       = [])
  ∧ (outcome (nb_transport_fw tx_nb_ok 2 (frame mac1' mac2) BEGIN_REQ 0
                after_first_frame) = AssertionFailed
     ∧ egress_ports
         (events (nb_transport_fw tx_nb_ok 2 (frame mac1' mac2) BEGIN_REQ 0
                    after_first_frame)) = []).
Proof.
  assert (valid_port (sw (switch 3 ∅)) 0) as Hport0 by port_ok.
  assert (valid_port (sw (switch 3 ∅)) 2) as Hport2 by port_ok.
  assert (2 ≠ 0) as Hne by lia.
  assert (hashMacAddr (srcAddr (data (frame mac1' mac2)))
          = hashMacAddr (srcAddr (data (frame mac1 mac2)))) as Hfp
    by reflexivity.
  destruct (same_fingerprint_on_another_port_fails tx_b_ok tx_nb_ok
              (switch 3 ∅) after_first_frame 0 (frame mac1 mac2)
              2 (frame mac1' mac2) BEGIN_REQ 0
              Hport0 Hport2 Hne Hfp after_first_frame_returned) as [Hb Hnb].
  do 3 (split; [assumption|]). split; [discriminate|]. split; [exact Hfp|].
  split; [apply Hb|apply Hnb]; reflexivity.
Defined.

Lemma reply_goes_to_the_learned_port_witness :
  valid_port (sw (switch 3 ∅)) 0
  ∧ hashMacAddr (destAddr (data (frame mac2 mac1)))
    = hashMacAddr (srcAddr (data (frame mac1 mac2)))
  ∧ source_consistent (dMacCache (sw after_first_frame)) 1 (frame mac2 mac1)
  ∧ egress_ports
      (events (b_transport tx_b_ok 1 (frame mac2 mac1) 0 after_first_frame)) = [0]
  ∧ egress_ports
      (events (nb_transport_fw tx_nb_ok 1 (frame mac2 mac1) BEGIN_REQ 0
                 after_first_frame)) = [0].
Proof.
  assert (valid_port (sw (switch 3 ∅)) 0) as Hport0 by port_ok.
  assert (hashMacAddr (destAddr (data (frame mac2 mac1)))
          = hashMacAddr (srcAddr (data (frame mac1 mac2)))) as Hfp
    by reflexivity.
  assert (source_consistent (dMacCache (sw after_first_frame)) 1
            (frame mac2 mac1)) as Hsrc by exact I.
  destruct (reply_goes_to_the_learned_port tx_b_ok tx_nb_ok
              (switch 3 ∅) after_first_frame 0 (frame mac1 mac2)
              1 (frame mac2 mac1) BEGIN_REQ 0
              Hport0 Hfp after_first_frame_returned Hsrc) as [Hb Hnb].
  do 3 (split; [assumption|]).
  split; [apply Hb|apply Hnb]; reflexivity.
Defined.


Lemma unicast_hands_the_call_through_witness :
  dMacCache (sw (switch 3 {[ hashMacAddr mac1 := 0 ]}))
    !! hashMacAddr (destAddr (data (frame mac2 mac1))) = Some 0
  ∧ source_consistent (dMacCache (sw (switch 3 {[ hashMacAddr mac1 := 0 ]}))) 1
      (frame mac2 mac1)
  ∧ outcome (b_transport (tx_b_failing 0) 1 (frame mac2 mac1) 5
               (switch 3 {[ hashMacAddr mac1 := 0 ]}))
    = Returned (set_response_status TLM_GENERIC_ERROR_RESPONSE (frame mac2 mac1), 5)
  ∧ outcome (nb_transport_fw (tx_nb_queueing 0) 1 (frame mac2 mac1) END_RESP 5
               (switch 3 {[ hashMacAddr mac1 := 0 ]}))
    = Returned (TLM_ACCEPTED,
                set_response_status TLM_OK_RESPONSE (frame mac2 mac1),
                END_REQ, 5)
  ∧ nb_calls
      (events (nb_transport_fw (tx_nb_queueing 0) 1 (frame mac2 mac1) END_RESP 5
                 (switch 3 {[ hashMacAddr mac1 := 0 ]})))
    = [(0, BEGIN_REQ, TLM_ACCEPTED, TLM_OK_RESPONSE)].
Proof.
  assert (dMacCache (sw (switch 3 {[ hashMacAddr mac1 := 0 ]}))
            !! hashMacAddr (destAddr (data (frame mac2 mac1))) = Some 0) as Hdst
    by reflexivity.
  assert (source_consistent
            (dMacCache (sw (switch 3 {[ hashMacAddr mac1 := 0 ]}))) 1
            (frame mac2 mac1)) as Hsrc by exact I.
  destruct (unicast_hands_the_call_through (tx_b_failing 0) (tx_nb_queueing 0)
              1 (frame mac2 mac1) END_RESP 5
              (switch 3 {[ hashMacAddr mac1 := 0 ]}) 0 Hdst Hsrc) as [Hb Hnb].
  do 2 (split; [assumption|]).
  split.
  - eapply (Hb eq_refl). reflexivity.
  - destruct (Hnb eq_refl tt
                (set_response_status TLM_OK_RESPONSE (frame mac2 mac1))
                END_REQ 5 TLM_ACCEPTED eq_refl) as (Hout & _ & Hcalls).
    split; [exact Hout|exact Hcalls].
Defined.

Lemma flood_on_a_single_port_switch_witness :
  dNumPorts (sw (switch 1 ∅)) = 1
  ∧ dMacCache (sw (switch 1 ∅)) !! hashMacAddr (destAddr (data (frame mac1 mac2)))
    = None
  ∧ hashMacAddr (destAddr (data (frame mac1 mac2)))
    ≠ hashMacAddr (srcAddr (data (frame mac1 mac2)))
  ∧ source_consistent (dMacCache (sw (switch 1 ∅))) 0 (frame mac1 mac2)
  ∧ outcome (b_transport tx_b_ok 0 (frame mac1 mac2) 0 (switch 1 ∅))
    = Returned (frame mac1 mac2, 0)
  ∧ outcome (nb_transport_fw tx_nb_ok 0 (frame mac1 mac2) END_RESP 0 (switch 1 ∅))
    = Returned (TLM_COMPLETED,
                set_response_status TLM_OK_RESPONSE (frame mac1 mac2),
                END_RESP, 0).
Proof.
  assert (dNumPorts (sw (switch 1 ∅)) = 1) as HN by reflexivity.
  assert (dMacCache (sw (switch 1 ∅))
            !! hashMacAddr (destAddr (data (frame mac1 mac2))) = None) as Hdst
    by reflexivity.
  assert (hashMacAddr (destAddr (data (frame mac1 mac2)))
          ≠ hashMacAddr (srcAddr (data (frame mac1 mac2)))) as Hne
    by (vm_compute; discriminate).
  assert (source_consistent (dMacCache (sw (switch 1 ∅))) 0 (frame mac1 mac2))
    as Hsrc by exact I.
  destruct (flood_on_a_single_port_switch tx_b_ok tx_nb_ok (frame mac1 mac2)
              END_RESP 0 (switch 1 ∅) HN Hdst Hne Hsrc) as [Hb Hnb].
  do 4 (split; [assumption|]).
  split; [apply (Hb eq_refl)|apply (Hnb eq_refl)].
Defined.

(** *** The gateway *)

Definition three_bytes : list Byte.byte := [Byte.x01; Byte.x02; Byte.x03].


Lemma recv_on_a_silent_port_witness :
  Gateway.destPortNumberMap Gateway.initial !! Gateway.to_uint16 65543 = None
  ∧ Gateway.numberOfBytesMap Gateway.initial !! Gateway.to_uint16 65543 = None
  ∧ (Gateway.recvEthernetPacket 2 [Gateway.PyLong 65543] Gateway.initial).1
    = Some (Gateway.mkPacket 0 7 [] 0).
Proof.
  assert (Gateway.destPortNumberMap Gateway.initial
            !! Gateway.to_uint16 65543 = None) as Hdest by reflexivity.
  assert (Gateway.numberOfBytesMap Gateway.initial
            !! Gateway.to_uint16 65543 = None) as Hcount by reflexivity.
  do 2 (split; [assumption|]).
  exact (Gateway.recv_on_a_silent_port 2 65543 Gateway.initial Hdest Hcount).
Defined.

Lemma source_ports_are_independent_witness :
  Gateway.to_uint16 7 ≠ Gateway.to_uint16 8
  ∧ (Gateway.recvEthernetPacket 2 [Gateway.PyLong 8]
       (Gateway.rxFrameHandler 2 three_bytes 3 80 7 Gateway.initial)).1
    = (Gateway.recvEthernetPacket 2 [Gateway.PyLong 8] Gateway.initial).1
  ∧ (Gateway.recvEthernetPacket 2 [Gateway.PyLong 8]
       (Gateway.recvEthernetPacket 2 [Gateway.PyLong 7] Gateway.initial).2).1
    = (Gateway.recvEthernetPacket 2 [Gateway.PyLong 8] Gateway.initial).1.
Proof.
  assert (Gateway.to_uint16 7 ≠ Gateway.to_uint16 8) as Hne
    by (vm_compute; discriminate).
  split; [exact Hne|].
  exact (Gateway.source_ports_are_independent 2 three_bytes 3 80 7 8
           Gateway.initial Hne).
Defined.


(** *** Conduit names *)

Lemma conduit_names_are_distinct_witness :
  ":rxConfigPort4" ∈ Conduits.initializeConnection_names 4
  ∧ (":rxConfigPort4" ∈ Conduits.initializeConnection_names 4 →
     ":rxConfigPort4" ∈ Conduits.initializeConnection_names 4 → 4 = 4)
  ∧ NoDup (Conduits.initializeConnection_names 4).
Proof.
  destruct (Conduits.conduit_names_are_distinct 4) as (Hnodup & Hinj & _).
  split; [|split; [exact (Hinj 4 ":rxConfigPort4")|exact Hnodup]].
  unfold Conduits.initializeConnection_names. cbv zeta.
  rewrite !elem_of_cons. do 5 right. left. reflexivity.
Defined.

End MoreScenarios.
